(** * mapchete: the batch execution core

    A shallow embedding of [mapchete/commands/_execute.py] ([execute] and
    [_msg_wrapper]), of the body of the [convert] command line entry point
    ([mapchete/cli/default/convert.py]) and of the executor contract that
    [test/test_executor.py] exercises.

    Python values are modelled as follows: [int] is [Z]; [None]-able
    arguments are [option]; exceptions are an explicit result type; side
    effects on collaborators (opening and closing the process object,
    message callbacks, task execution) are recorded in a chronological
    trace of events; generator functions are finite resumption trees with
    one continuation for [next()] and one for [close()] at every [yield].
    [mp.__exit__] is taken not to raise, and what [mp.batch_processor]
    does when it is dropped half-way is left out. *)

From Stdlib Require Import ZArith List String Bool Lia QArith.
From Stdlib Require Import DecimalString.
Import ListNotations.
Open Scope string_scope.
Open Scope list_scope.
Open Scope Z_scope.

Set Implicit Arguments.

(* ================================================================== *)
(** ** Python basics *)
(* ================================================================== *)

Module Py.

(** The part of Python's exception hierarchy that the code discriminates:
    [except Exception] catches [Exception] and its subclasses, but neither
    [KeyboardInterrupt] nor [GeneratorExit] (both derive directly from
    [BaseException]). *)
Inductive exn : Type :=
| Exception (msg : string)
| KeyboardInterrupt
| GeneratorExit.

Definition is_Exception (e : exn) : bool :=
  match e with
  | Exception _ => true
  | KeyboardInterrupt | GeneratorExit => false
  end.

Inductive result (A : Type) : Type :=
| Ok (a : A)
| Raise (e : exn).
Arguments Ok {A} a.
Arguments Raise {A} e.

(** [str(i)] for an [int]. *)
Definition str_int (z : Z) : string := NilZero.string_of_int (Z.to_int z).

(** [str((a, b, c))] for a tuple of three [int]s. *)
Definition str_tuple3 (t : Z * Z * Z) : string :=
  let '(a, b, c) := t in
  ("(" ++ str_int a ++ ", " ++ str_int b ++ ", " ++ str_int c ++ ")")%string.

(** Truth value of an [int] or [None]. *)
Definition truthy_int (x : option Z) : bool :=
  match x with
  | None => false
  | Some z => negb (z =? 0)
  end.

(** Truth value of a [str] or [None]. *)
Definition truthy_str (x : option string) : bool :=
  match x with
  | None | Some EmptyString => false
  | Some (String _ _) => true
  end.

(** Truth value of an object without [__bool__] and [__len__] (or a
    non-empty tuple), or [None]. *)
Definition truthy_obj {A : Type} (x : option A) : bool :=
  match x with
  | None => false
  | Some _ => true
  end.

(** [len(obj)] where [obj.__len__()] returns [n]: a negative value is a
    [ValueError]. *)
Definition len_of (n : Z) : result Z :=
  if n <? 0 then Raise (Exception "ValueError: __len__() should return >= 0")
  else Ok n.

End Py.
Import Py.

(* ================================================================== *)
(** ** Data passed between the orchestrator and its collaborators *)
(* ================================================================== *)

(** [mapchete_config : Union[str, dict]]. *)
Inductive Config : Type :=
| ConfigPath (path : string)
| ConfigDict (items : list (string * string)).

(** [zoom : Union[int, List[int]]]. *)
Inductive ZoomLevels : Type :=
| ZoomInt (z : Z)
| ZoomList (zs : list Z).

(** Coordinates are only passed through, never computed with. *)
Record Bounds : Type := mkBounds {
  b_left : Q; b_bottom : Q; b_right : Q; b_top : Q
}.

(** A tile of the process pyramid, as returned by [pyramid.tile(z, r, c)]. *)
Record Tile : Type := mkTile {
  tile_id : Z * Z * Z;
  tile_zoom : Z;
  tile_bounds : Bounds
}.

(** The raw configuration dictionary and the process pyramid derived
    from it are opaque to [execute]. *)
Definition RawConf : Type := list (string * string).
Record Pyramid : Type := mkPyramid { grid : string; metatiling : Z }.

(** Per-task result record yielded by [mp.batch_processor]. *)
Record ProcessInfo : Type := mkProcessInfo {
  pi_tile : Tile;
  process_msg : string;
  write_msg : string
}.

(** Keyword arguments of [mapchete.open] as [execute] passes them. *)
Record OpenArgs : Type := mkOpenArgs {
  o_config : Config;
  o_mode : string;
  o_bounds : option Bounds;
  o_zoom : option ZoomLevels;
  o_area : option string;
  o_area_crs : option string
}.

(** [executor_kwargs] of the [Job]. *)
Record ExecutorKwargs : Type := mkExecutorKwargs {
  ek_dask_scheduler : option string;
  ek_max_chunksize : option Z;
  ek_multiprocessing_start_method : option string
}.

(** The executor handed to the generator function: its concurrency mode
    ([None], ["dask"] or ["processes"]) and construction arguments. *)
Record Executor : Type := mkExecutor {
  ex_concurrency : option string;
  ex_kwargs : ExecutorKwargs
}.

(** [fkwargs] of the [Job], forwarded to [mp.batch_processor]. *)
Record BatchKwargs : Type := mkBatchKwargs {
  kw_tile : option Tile;
  kw_multi : option Z;
  kw_zoom : option ZoomLevels
}.

(* ================================================================== *)
(** ** Effects: a trace of events, and exceptions *)
(* ================================================================== *)

Inductive event : Type :=
| EvOpen (a : OpenArgs)                           (* mapchete.open(...) *)
| EvCountTiles                                    (* mp.count_tiles() *)
| EvMsg (s : string)                              (* msg_callback(s) *)
| EvExecutorEnter (e : Executor)                  (* with Executor(...) *)
| EvExecutorExit                                  (* ... leaving the with *)
| EvBatchProcessor (e : Executor) (kw : BatchKwargs)
                                                  (* mp.batch_processor(...) *)
| EvProcessed (p : ProcessInfo)                   (* one task has run *)
| EvExit                                          (* mp.__exit__(...) *)
| EvWrite (s : string)                            (* tqdm.tqdm.write(s) *)
| EvIndex.                                        (* commands.index(...) *)

Definition trace : Type := list event.

(** Number of times the process object has been released. *)
Fixpoint exit_count (tr : trace) : nat :=
  match tr with
  | [] => 0%nat
  | EvExit :: tr' => S (exit_count tr')
  | _ :: tr' => exit_count tr'
  end.

Definition is_task_event (ev : event) : bool :=
  match ev with
  | EvProcessed _ | EvBatchProcessor _ _ | EvExecutorEnter _ => true
  | _ => false
  end.

(** Computations that log events and may raise: the trace survives an
    exception. *)
Definition M (A : Type) : Type := trace -> result A * trace.

Definition ret {A} (a : A) : M A := fun tr => (Ok a, tr).
Definition raise {A} (e : exn) : M A := fun tr => (Raise e, tr).
Definition bind {A B} (c : M A) (k : A -> M B) : M B :=
  fun tr =>
    match c tr with
    | (Ok a, tr') => k a tr'
    | (Raise e, tr') => (Raise e, tr')
    end.
Definition emit (ev : event) : M unit := fun tr => (Ok tt, tr ++ [ev]).
Definition lift {A} (r : result A) : M A := fun tr => (r, tr).

(** [try: body except Exception: handler(e)]. *)
Definition try_except_Exception {A} (body : M A) (handler : exn -> M A) : M A :=
  fun tr =>
    match body tr with
    | (Ok a, tr') => (Ok a, tr')
    | (Raise e, tr') =>
        if is_Exception e then handler e tr' else (Raise e, tr')
    end.

Declare Scope py_scope.
Delimit Scope py_scope with py.
Notation "x <- c ;; k" := (bind c (fun x => k))
  (at level 61, c at next level, right associativity) : py_scope.
Notation "c ;;; k" := (bind c (fun _ => k))
  (at level 61, right associativity) : py_scope.
Open Scope py_scope.

(* ================================================================== *)
(** ** Generators *)
(* ================================================================== *)

(** The body of a generator function from its current point on.  At a
    [yield] the generator is suspended: [next()] resumes it normally,
    [close()] resumes it by raising [GeneratorExit] at the [yield]. *)
Inductive Gen (A : Type) : Type :=
| GReturn                                   (* body ends: StopIteration *)
| GRaise (e : exn)                          (* body raises *)
| GEmit (ev : event) (k : Gen A)            (* a side effect, then go on *)
| GYield (a : A) (on_next : Gen A) (on_close : Gen A).
Arguments GReturn {A}.
Arguments GRaise {A} e.
Arguments GEmit {A} ev k.
Arguments GYield {A} a on_next on_close.

(** A plain [yield a] outside any handler: closing re-raises
    [GeneratorExit] out of the body. *)
Definition yield_ {A} (a : A) (k : Gen A) : Gen A :=
  GYield a k (GRaise GeneratorExit).

(** [try: body finally: fin], where [fin] only has side effects: it runs
    when the body ends, when it raises, and when an exception is thrown in
    at a [yield]; the pending outcome is kept. *)
Fixpoint try_finally {A} (body : Gen A) (fin : Gen A -> Gen A) : Gen A :=
  match body with
  | GReturn => fin GReturn
  | GRaise e => fin (GRaise e)
  | GEmit ev k => GEmit ev (try_finally k fin)
  | GYield a kn kc => GYield a (try_finally kn fin) (try_finally kc fin)
  end.

(** A generator object. *)
Inductive GenObj (A : Type) : Type :=
| Created (body : Gen A)                    (* not started yet *)
| Suspended (on_next on_close : Gen A)      (* stopped at a yield *)
| Finished.
Arguments Created {A} body.
Arguments Suspended {A} on_next on_close.
Arguments Finished {A}.

Inductive next_result (A : Type) : Type :=
| Yielded (a : A)
| Stopped                                   (* StopIteration *)
| Raised (e : exn).
Arguments Yielded {A} a.
Arguments Stopped {A}.
Arguments Raised {A} e.

(** Run a body up to its next [yield] or its end. *)
Fixpoint run {A} (g : Gen A) (tr : trace) : next_result A * GenObj A * trace :=
  match g with
  | GReturn => (Stopped, Finished, tr)
  | GRaise e => (Raised e, Finished, tr)
  | GEmit ev k => run k (tr ++ [ev])
  | GYield a kn kc => (Yielded a, Suspended kn kc, tr)
  end.

(** [next(gen)]. *)
Definition next {A} (o : GenObj A) (tr : trace)
  : next_result A * GenObj A * trace :=
  match o with
  | Created g => run g tr
  | Suspended kn _ => run kn tr
  | Finished => (Stopped, Finished, tr)
  end.

(** [gen.close()]: nothing happens for a generator that has not started
    or has finished; a suspended one gets [GeneratorExit] at its [yield],
    which [close] swallows when it comes back out.  It is also what the
    interpreter does when a suspended generator is dropped, as after a
    [break] out of a [for] loop. *)
Definition close {A} (o : GenObj A) (tr : trace)
  : result unit * GenObj A * trace :=
  match o with
  | Created _ => (Ok tt, Finished, tr)
  | Finished => (Ok tt, Finished, tr)
  | Suspended _ kc =>
      match run kc tr with
      | (Stopped, _, tr') => (Ok tt, Finished, tr')
      | (Raised GeneratorExit, _, tr') => (Ok tt, Finished, tr')
      | (Raised e, _, tr') => (Raise e, Finished, tr')
      | (Yielded _, _, tr') =>
          (Raise (Exception "RuntimeError: generator ignored GeneratorExit"),
           Finished, tr')
      end
  end.

(** [list(gen)] on a body: all yielded values, and how the body ended. *)
Fixpoint drain {A} (g : Gen A) (tr : trace) : list A * option exn * trace :=
  match g with
  | GReturn => ([], None, tr)
  | GRaise e => ([], Some e, tr)
  | GEmit ev k => drain k (tr ++ [ev])
  | GYield a kn _ =>
      let '(xs, e, tr') := drain kn tr in (a :: xs, e, tr')
  end.

(** [list(gen)] as a computation: the list, or the exception. *)
Definition to_list {A} (g : Gen A) : M (list A) :=
  fun tr =>
    match drain g tr with
    | (xs, None, tr') => (Ok xs, tr')
    | (_, Some e, tr') => (Raise e, tr')
    end.

(** Take up to [k] items with [next()], then drop the generator. *)
Fixpoint take_then_close {A} (k : nat) (o : GenObj A) (tr : trace)
  : list A * result unit * GenObj A * trace :=
  match k with
  | O => let '(r, o', tr') := close o tr in ([], r, o', tr')
  | S k' =>
      match next o tr with
      | (Yielded a, o', tr') =>
          let '(xs, r, o'', tr'') := take_then_close k' o' tr' in
          (a :: xs, r, o'', tr'')
      | (Stopped, o', tr') => ([], Ok tt, o', tr')
      | (Raised e, o', tr') => ([], Raise e, o', tr')
      end
  end.

(** [for a in inner: body], where [body a k] is the loop body followed by
    the rest [k] of the loop. *)
Fixpoint for_in {A B} (inner : Gen A) (body : A -> Gen B -> Gen B) : Gen B :=
  match inner with
  | GReturn => GReturn
  | GRaise e => GRaise e
  | GEmit ev k => GEmit ev (for_in k body)
  | GYield a kn _ => body a (for_in kn body)
  end.

(* ================================================================== *)
(** ** Collaborators of the orchestrator *)
(* ================================================================== *)

(** A message callback: the caller's function, which may raise, or the
    local [_empty_callback] of [execute]. *)
Inductive Callable : Type :=
| UserCallback (raises : string -> option exn)
| EmptyCallback.

(** [msg_callback(s)] in straight-line code. *)
Definition call (cb : Callable) (s : string) : M unit :=
  match cb with
  | EmptyCallback => ret tt
  | UserCallback f =>
      emit (EvMsg s) ;;;
      match f s with
      | Some e => raise e
      | None => ret tt
      end
  end.

(** [msg_callback(s)] inside a generator body. *)
Definition gcall {A} (cb : Callable) (s : string) (k : Gen A) : Gen A :=
  match cb with
  | EmptyCallback => k
  | UserCallback f =>
      GEmit (EvMsg s)
        match f s with
        | Some e => GRaise e
        | None => k
        end
  end.

(** What one call of [mp.batch_processor] does: the tasks that complete,
    in the order they are yielded, and the exception that ends the stream
    early, if any (a failed task, an interrupt). *)
Record Batch : Type := mkBatch {
  batch_items : list ProcessInfo;
  batch_end : option exn
}.

Fixpoint batch_gen_items (items : list ProcessInfo) (e : option exn)
  : Gen ProcessInfo :=
  match items with
  | [] => match e with
          | None => GReturn
          | Some x => GRaise x
          end
  | p :: rest => GEmit (EvProcessed p) (yield_ p (batch_gen_items rest e))
  end.

Definition batch_gen (b : Batch) : Gen ProcessInfo :=
  batch_gen_items (batch_items b) (batch_end b).

(** The opened process object [mp]. *)
Record Mapchete : Type := mkMapchete {
  mp_count_tiles : result Z;
  mp_batch_processor : Executor -> BatchKwargs -> Batch
}.

Definition count_tiles (mp : Mapchete) : M Z :=
  emit EvCountTiles ;;; lift (mp_count_tiles mp).

Definition batch_processor (mp : Mapchete) (ex : Executor) (kw : BatchKwargs)
  : Gen ProcessInfo :=
  GEmit (EvBatchProcessor ex kw) (batch_gen (mp_batch_processor mp ex kw)).

(** [mp.__exit__(None, None, None)]. *)
Definition mp_exit : M unit := emit EvExit.

(** Everything [execute] reads from outside its arguments. *)
Record Env : Type := mkEnv {
  cpu_count : Z;
  raw_conf : Config -> result RawConf;
  raw_conf_process_pyramid : RawConf -> result Pyramid;
  pyramid_tile : Pyramid -> Z * Z * Z -> result Tile;
  bounds_from_opts :
    option (Q * Q) -> option string -> option Bounds -> option string ->
    RawConf -> result (option Bounds);
  mapchete_open : OpenArgs -> result Mapchete
}.

Definition open_ (env : Env) (a : OpenArgs) : M Mapchete :=
  emit (EvOpen a) ;;; lift (mapchete_open env a).

(* ================================================================== *)
(** ** Job *)
(* ================================================================== *)

Module Job.

(** Modelled from the spec: the [mapchete.Job] class is not part of the
    sources at hand.  It is "a sized, iterable wrapper around a
    generator-producing operation": iteration "internally invokes
    [generator_fn(*fargs, executor=<constructed Executor>, **fkwargs)]",
    the executor being "always used as a scoped resource"; "a Job
    constructed with [total == 0] produces an empty iteration without
    invoking the underlying Executor"; and it is consumed eagerly "when
    the caller does not need streaming", which the docstring of
    [execute] words as a Job "either with already processed items or a
    generator with known length" ([as_iterator]). *)
Record t (FA FK : Type) : Type := mk {
  func : FA -> Executor -> FK -> Gen ProcessInfo;
  fargs : FA;
  fkwargs : FK;
  executor_concurrency : option string;
  executor_kwargs : ExecutorKwargs;
  as_iterator : bool;
  total : Z;
  results : list ProcessInfo
}.

Section Ops.
Context {FA FK : Type}.

(** Modelled from the spec: the generator a Job iterates, empty when
    [total] is zero, else [func] under a scoped executor. *)
Definition run_ (j : t FA FK) : Gen ProcessInfo :=
  if total j =? 0 then GReturn
  else
    let ex := mkExecutor (executor_concurrency j) (executor_kwargs j) in
    GEmit (EvExecutorEnter ex)
      (try_finally (func j (fargs j) ex (fkwargs j)) (GEmit EvExecutorExit)).

(** Modelled from the spec: iterating the stored results of an eagerly
    consumed Job has no effect. *)
Fixpoint replay (rs : list ProcessInfo) : Gen ProcessInfo :=
  match rs with
  | [] => GReturn
  | r :: rs' => yield_ r (replay rs')
  end.

(** Modelled from the spec: [Job(func, fargs=..., fkwargs=...,
    executor_concurrency=..., executor_kwargs=..., as_iterator=...,
    total=...)], consumed on construction unless [as_iterator]. *)
Definition new (func : FA -> Executor -> FK -> Gen ProcessInfo)
    (fargs : FA) (fkwargs : FK) (executor_concurrency : option string)
    (executor_kwargs : ExecutorKwargs) (as_iterator : bool) (total : Z)
  : M (t FA FK) :=
  let j := mk func fargs fkwargs executor_concurrency executor_kwargs
              as_iterator total [] in
  if as_iterator then ret j
  else
    rs <- to_list (run_ j) ;;
    ret (mk func fargs fkwargs executor_concurrency executor_kwargs
            as_iterator total rs).

(** Modelled from the spec: [len(job)] is the total. *)
Definition len (j : t FA FK) : M Z := lift (len_of (total j)).

(** Modelled from the spec: what [iter(job)] runs. *)
Definition body (j : t FA FK) : Gen ProcessInfo :=
  if as_iterator j then run_ j else replay (results j).

(** Modelled from the spec: [iter(job)]. *)
Definition iter (j : t FA FK) : GenObj ProcessInfo := Created (body j).

(** Modelled from the spec: [list(job)]. *)
Definition list_ (j : t FA FK) : M (list ProcessInfo) := to_list (body j).
End Ops.
End Job.

(* ================================================================== *)
(** ** mapchete/commands/_execute.py *)
(* ================================================================== *)

Record ExecuteArgs : Type := mkExecuteArgs {
  mapchete_config : Config;
  zoom : option ZoomLevels;
  area : option string;
  area_crs : option string;
  bounds : option Bounds;
  bounds_crs : option string;
  point : option (Q * Q);
  point_crs : option string;
  tile : option (Z * Z * Z);
  overwrite : bool;
  mode : string;
  multi : option Z;
  max_chunksize : option Z;
  multiprocessing_start_method : option string;
  dask_scheduler : option string;
  msg_callback : option (string -> option exn);
  as_iterator : bool
}.

(** [x == n] for an [int] or [None] [x]. *)
Definition eq_int (x : option Z) (n : Z) : bool :=
  match x with
  | Some z => z =? n
  | None => false
  end.

(** [x is None]. *)
Definition is_None {A} (x : option A) : bool :=
  match x with
  | None => true
  | Some _ => false
  end.

(** [str(x)] for an [int] or [None] [x]. *)
Definition str_opt_int (x : option Z) : string :=
  match x with
  | Some z => str_int z
  | None => "None"
  end.

(** The message of [_msg_wrapper] for one processed tile. *)
Definition tile_msg (process_info : ProcessInfo) : string :=
  ("Tile " ++ str_tuple3 (tile_id (pi_tile process_info)) ++ ": "
   ++ process_msg process_info ++ ", " ++ write_msg process_info)%string.

(** [_msg_wrapper(msg_callback, mp, executor=None, **kwargs)]. *)
Definition _msg_wrapper (fargs : Callable * Mapchete) (executor : Executor)
    (kwargs : BatchKwargs) : Gen ProcessInfo :=
  let '(msg_callback, mp) := fargs in
  try_finally
    (for_in (batch_processor mp executor kwargs)
       (fun process_info k =>
          yield_ process_info
            (gcall msg_callback (tile_msg process_info) k)))
    (* explicitly exit the mp object on success *)
    (GEmit EvExit).

(** The concurrency choice of [execute], lines 127 to 132, over the
    values the names have at that point. *)
Definition concurrency_of (dask_scheduler : option string) (tiles_count : Z)
    (multi : option Z) : option string :=
  if truthy_str dask_scheduler then Some "dask"
  else if (tiles_count =? 1) || eq_int multi 1 || is_None multi then None
  else Some "processes".

(** The Jobs of [execute]: [fargs] is [(msg_callback, mp)], [fkwargs]
    the keywords for [mp.batch_processor]. *)
Definition ExecuteJob : Type := Job.t (Callable * Mapchete) BatchKwargs.

(** Lines 99 to 110 of [execute]: the tile, and the bounds and zoom the
    process is opened with. *)
Definition select_tile (env : Env) (a : ExecuteArgs)
  : M (option Tile * option Bounds * option ZoomLevels) :=
  match tile a with
  | Some zrc =>
      rc <- lift (raw_conf env (mapchete_config a)) ;;
      py <- lift (raw_conf_process_pyramid env rc) ;;
      t <- lift (pyramid_tile env py zrc) ;;
      ret (Some t, Some (tile_bounds t), Some (ZoomInt (tile_zoom t)))
  | None =>
      rc <- lift (raw_conf env (mapchete_config a)) ;;
      b <- lift (bounds_from_opts env (point a) (point_crs a)
                   (bounds a) (bounds_crs a) rc) ;;
      ret (None, b, zoom a)
  end.

(** The message of line 126. *)
Definition count_msg (tiles_count : Z) (multi : option Z) : string :=
  ("processing " ++ str_int tiles_count ++ " tile(s) on "
   ++ str_opt_int multi ++ " worker(s)")%string.

(** Lines 122 to 152 of [execute]: the body of the [try] block. *)
Definition make_job (a : ExecuteArgs) (msg_callback : Callable)
    (multi : option Z) (tile : option Tile) (zoom : option ZoomLevels)
    (mp : Mapchete) : M ExecuteJob :=
  tiles_count <- count_tiles mp ;;
  (if truthy_obj tile then call msg_callback "processing 1 tile"
   else call msg_callback (count_msg tiles_count multi)) ;;;
  let concurrency := concurrency_of (dask_scheduler a) tiles_count multi in
  Job.new _msg_wrapper (msg_callback, mp)
    (mkBatchKwargs tile multi (if truthy_obj tile then None else zoom))
    concurrency
    (mkExecutorKwargs (dask_scheduler a) (max_chunksize a)
       (multiprocessing_start_method a))
    (as_iterator a)
    (if truthy_obj tile then 1 else tiles_count).

(** [msg_callback or _empty_callback]. *)
Definition callback_or_empty (cb : option (string -> option exn)) : Callable :=
  match cb with
  | Some f => UserCallback f
  | None => EmptyCallback
  end.

(** [multi or cpu_count()]. *)
Definition multi_or_cpu_count (env : Env) (multi : option Z) : option Z :=
  if truthy_int multi then multi else Some (cpu_count env).

(** The arguments of the [mapchete.open] call of [execute], lines 113 to
    120, with the mode of line 91. *)
Definition open_args (a : ExecuteArgs) (bounds : option Bounds)
    (zoom : option ZoomLevels) : OpenArgs :=
  mkOpenArgs (mapchete_config a)
    (if overwrite a then "overwrite" else mode a)
    bounds zoom (area a) (area_crs a).

(** [execute(mapchete_config, zoom=None, ..., as_iterator=False)]. *)
Definition execute (env : Env) (a : ExecuteArgs) : M ExecuteJob :=
  let msg_callback := callback_or_empty (msg_callback a) in
  let multi := multi_or_cpu_count env (multi a) in
  sel <- select_tile env a ;;
  let '(tile, bounds, zoom) := sel in
  (* be careful opening mapchete not as context manager *)
  mp <- open_ env (open_args a bounds zoom) ;;
  try_except_Exception
    (make_job a msg_callback multi tile zoom mp)
    (* explicitly exit the mp object on failure *)
    (fun e => mp_exit ;;; raise e).

(* ================================================================== *)
(** ** mapchete/cli/default/convert.py *)
(* ================================================================== *)

Module Cli.

(** How a block of statements ends: by [return], or by reaching its
    last statement. *)
Inductive flow : Type := Returned | FellThrough.

Record ConvertArgs : Type := mkConvertArgs {
  tiledir : string;
  output : string;
  vrt : bool;
  idx_out_dir : option string;
  debug : bool;
  no_pbar : bool;
  verbose : bool;
  logfile : option string
}.

Section Convert.
Context {FA FK FA' FK' : Type}.

(** [commands.convert(tiledir, output, *args, as_iterator=...,
    msg_callback=..., **kwargs)] and [commands.index(output, *args,
    vrt=..., idx_out_dir=..., as_iterator=..., msg_callback=...,
    **kwargs)] live outside this file. *)
Variable commands_convert :
  string -> string -> bool -> option (string -> option exn) ->
  M (Job.t FA FK).
Variable commands_index :
  string -> bool -> option string -> bool ->
  option (string -> option exn) -> M (Job.t FA' FK').
(** [str(t)] of the [mapchete.Timer] when the block is left. *)
Variable elapsed : string.

(** [tqdm.tqdm.write if verbose else None]. *)
Definition write_if (verbose : bool) : option (string -> option exn) :=
  if verbose then Some (fun _ => None) else None.

(** The body of the [with mapchete.Timer() as t:] block. *)
Definition convert_timed (a : ConvertArgs) : M flow :=
  job <- commands_convert (tiledir a) (output a) true
           (write_if (verbose a)) ;;
  n <- Job.len job ;;
  if n =? 0 then ret Returned
  else
    _ <- Job.list_ job ;;
    emit (EvWrite ("processing " ++ tiledir a ++ " finished in "
                   ++ elapsed)%string) ;;;
    ret FellThrough.

(** [convert(tiledir, output, *args, vrt=False, ..., **kwargs)]. *)
Definition convert (a : ConvertArgs) : M unit :=
  fl <- convert_timed a ;;
  match fl with
  | Returned => ret tt
  | FellThrough =>
      if vrt a then
        emit (EvWrite "creating VRT(s)") ;;;
        emit EvIndex ;;;
        idx <- commands_index (output a) (vrt a) (idx_out_dir a) true
                 (write_if (verbose a)) ;;
        _ <- Job.list_ idx ;;
        emit (EvWrite ("index(es) creation for " ++ tiledir a
                       ++ " finished")%string)
      else ret tt
  end.
End Convert.
End Cli.

(* ================================================================== *)
(** ** The executor contract *)
(* ================================================================== *)

Module Executor_.

(** Modelled from the spec: the [Executor] and [Future] classes are not
    part of the sources at hand; only their test is.  "Each item in
    [iterable_of_items] becomes one Task: [fn(item, *fargs, **fkwargs)]";
    "a Task raising an error is captured into its Future as a failure,
    never raised out of [as_completed] itself; the caller observes it via
    the Future's result accessor, which re-raises at that point"; the
    sequential mode "executes each Task synchronously on the calling
    thread, in input order; a Future is still produced per item";
    "after [cancel()], [as_completed] must not submit further Tasks from
    the same iterable"; the other modes yield Futures "in completion
    order", which the backend decides. *)

Inductive Mode : Type := Sequential | Threads | Processes | Distributed.

(** Modelled from the spec: the terminal states of a Future, "completed,
    failed, cancelled", with its "result|error". *)
Inductive Outcome (R : Type) : Type :=
| Completed (r : R)
| Failed (e : exn)
| Cancelled.
Arguments Completed {R} r.
Arguments Failed {R} e.
Arguments Cancelled {R}.

(** Modelled from the spec: a Future, "a handle to one submitted Task's
    eventual outcome". *)
Record Future (R : Type) : Type := mkFuture {
  fut_id : nat;
  fut_outcome : Outcome R
}.

(** Modelled from the spec: [future.result()] returns the value or
    "raises the captured failure/cancellation". *)
Definition result_ {R} (f : Future R) : result R :=
  match fut_outcome f with
  | Completed r => Ok r
  | Failed e => Raise e
  | Cancelled => Raise (Exception "CancelledError")
  end.

(** Modelled from the spec: [future.cancelled()]. *)
Definition cancelled_ {R} (f : Future R) : bool :=
  match fut_outcome f with
  | Cancelled => true
  | _ => false
  end.

(** Modelled from the spec: the Executor, "{concurrency_mode, ...,
    futures: ordered_sequence(Future), cancelled: bool}". *)
Record t (R : Type) : Type := mk {
  concurrency : Mode;
  cancelled : bool;
  futures : list (Future R)
}.

(** Modelled from the spec: [Executor(concurrency=...)]. *)
Definition new {R} (m : Mode) : t R := mk m false [].

(** Modelled from the spec: [executor.cancel()] "sets cancelled = true". *)
Definition cancel {R} (ex : t R) : t R :=
  mk (concurrency ex) true (futures ex).

Section Tasks.
Context {A FArgs FKwargs R : Type}.
Variable fn : A -> FArgs -> FKwargs -> result R.
Variable fargs : FArgs.
Variable fkwargs : FKwargs.

(** Modelled from the spec: running one Task captures its outcome, value
    or error, in its Future. *)
Definition run_task (id : nat) (item : A) : Future R :=
  match fn item fargs fkwargs with
  | Ok r => mkFuture id (Completed r)
  | Raise e => mkFuture id (Failed e)
  end.

(** Modelled from the spec: one [next()] on the sequential
    [as_completed] generator, whose state is the items not yet taken from
    the iterable; nothing is submitted once the executor is cancelled. *)
Definition seq_next (ex : t R) (items : list A)
  : next_result (Future R) * t R * list A :=
  match items with
  | [] => (Stopped, ex, [])
  | item :: rest =>
      if cancelled ex then (Stopped, ex, [])
      else
        let f := run_task (List.length (futures ex)) item in
        (Yielded f, mk (concurrency ex) (cancelled ex) (futures ex ++ [f]),
         rest)
  end.

(** Modelled from the spec: [for future in executor.as_completed(fn,
    items): body], in sequential mode; the loop body sees the Future and
    may cancel the executor.  Returns the Futures the loop has seen. *)
Fixpoint seq_for (body : Future R -> t R -> t R) (ex : t R)
    (items : list A) : list (Future R) * t R :=
  match items with
  | [] => ([], ex)
  | _ :: rest =>
      match seq_next ex items with
      | (Yielded f, ex', _) =>
          let '(fs, ex'') := seq_for body (body f ex') rest in
          (f :: fs, ex'')
      | (_, ex', _) => ([], ex')
      end
  end.

(** Modelled from the spec: the order in which the Futures of a run are
    yielded, all tasks allowed to complete: in sequential mode the input
    order, otherwise the completion order [schedule] (indexes into the
    items) that the backend produced. *)
Definition completion_order (m : Mode) (schedule : list nat) (n : nat)
  : list nat :=
  match m with
  | Sequential => seq 0 n
  | _ => schedule
  end.

(** Modelled from the spec: the Futures of the tasks at the indexes
    [order], one after the other. *)
Fixpoint yield_in_order (order : list nat) (items : list A)
  : list (Future R) :=
  match order with
  | [] => []
  | i :: order' =>
      match nth_error items i with
      | Some item => run_task i item :: yield_in_order order' items
      | None => yield_in_order order' items
      end
  end.

(** Modelled from the spec: the Futures [as_completed] yields over a
    whole run. *)
Definition as_completed (m : Mode) (schedule : list nat) (items : list A)
  : list (Future R) :=
  yield_in_order (completion_order m schedule (List.length items)) items.
End Tasks.

(** [_dummy_process(i, sleep=0)] of the test module: [time.sleep]
    rejects a negative duration. *)
Definition _dummy_process (i : Z) (_ : unit) (sleep : Z) : result Z :=
  if sleep <? 0
  then Raise (Exception "ValueError: sleep length must be non-negative")
  else Ok (i + 1).

(** [range(n)]. *)
Definition range (n : nat) : list Z := map Z.of_nat (seq 0 n).

End Executor_.

(* ================================================================== *)
(** ** Specification-side definitions and concrete scenarios *)
(* ================================================================== *)

(** The concurrency selection in the words of the specification, over
    the caller's [multi]: distributed when a scheduler is configured,
    else sequential when [tiles_count == 1] or [multi == 1] or [multi] is
    unset, else processes. *)
Definition spec_concurrency (tiles_count : Z) (multi : option Z)
    (distributed_configured : bool) : option string :=
  if distributed_configured then Some "dask"
  else if (tiles_count =? 1) || eq_int multi 1 || is_None multi then None
  else Some "processes".

(** The worker count [execute] works with after line 97: the caller's
    [multi] when it is set and not zero, the CPU count otherwise. *)
Definition effective_multi (env : Env) (a : ExecuteArgs) : Z :=
  match multi a with
  | Some m => if m =? 0 then cpu_count env else m
  | None => cpu_count env
  end.

(** The [try ... finally] of [_msg_wrapper] over a batch given by its
    items and its end, the text of the messages left open. *)
Definition wrapper_loop (cb : Callable) (msg_of : ProcessInfo -> string)
    (items : list ProcessInfo) (e : option exn) : Gen ProcessInfo :=
  try_finally
    (for_in (batch_gen_items items e)
       (fun p k => yield_ p (gcall cb (msg_of p) k)))
    (GEmit EvExit).

(** The generator object of [try: body finally: ev] when that of [body]
    is [o]. *)
Definition obj_finally {A} (ev : event) (o : GenObj A) : GenObj A :=
  match o with
  | Created g => Created (try_finally g (GEmit ev))
  | Suspended kn kc =>
      Suspended (try_finally kn (GEmit ev)) (try_finally kc (GEmit ev))
  | Finished => Finished
  end.

(** The same call with other [zoom] and [bounds] arguments. *)
Definition set_zoom_bounds (a : ExecuteArgs) (z : option ZoomLevels)
    (b : option Bounds) : ExecuteArgs :=
  mkExecuteArgs (mapchete_config a) z (area a) (area_crs a) b (bounds_crs a)
    (point a) (point_crs a) (tile a) (overwrite a) (mode a) (multi a)
    (max_chunksize a) (multiprocessing_start_method a) (dask_scheduler a)
    (msg_callback a) (as_iterator a).

(** All events satisfy [P], on every path through a generator body. *)
Fixpoint gen_all {A} (P : event -> bool) (g : Gen A) : bool :=
  match g with
  | GReturn | GRaise _ => true
  | GEmit ev k => P ev && gen_all P k
  | GYield _ kn kc => gen_all P kn && gen_all P kc
  end.

Definition not_open (ev : event) : bool :=
  match ev with
  | EvOpen _ => false
  | _ => true
  end.

Definition not_exit (ev : event) : bool :=
  match ev with
  | EvExit => false
  | _ => true
  end.

Definition not_count (ev : event) : bool :=
  match ev with
  | EvCountTiles => false
  | _ => true
  end.

Definition not_batch (ev : event) : bool :=
  match ev with
  | EvBatchProcessor _ _ => false
  | _ => true
  end.

(** No [mp.batch_processor] call with a [zoom] keyword other than
    [None], and no [mapchete.open] call. *)
Definition zoom_unset_event (ev : event) : bool :=
  match ev with
  | EvBatchProcessor _ kw => is_None (kw_zoom kw)
  | EvOpen _ => false
  | _ => true
  end.

(** [mapchete.open] calls recorded in a trace. *)
Fixpoint opens (tr : trace) : list OpenArgs :=
  match tr with
  | [] => []
  | EvOpen a :: tr' => a :: opens tr'
  | _ :: tr' => opens tr'
  end.

(** Keyword arguments of the [mp.batch_processor] calls in a trace. *)
Fixpoint batch_calls (tr : trace) : list BatchKwargs :=
  match tr with
  | [] => []
  | EvBatchProcessor _ kw :: tr' => kw :: batch_calls tr'
  | _ :: tr' => batch_calls tr'
  end.

Module Scenario.

Definition unit_bounds : Bounds := mkBounds 0%Q 0%Q 1%Q 1%Q.

Definition info (row : Z) : ProcessInfo :=
  mkProcessInfo (mkTile (5, row, 2) 5 unit_bounds) "processed" "written".

(** A process object with [n] tiles whose batch yields [items] and then
    ends as [e] says. *)
Definition mp_of (n : Z) (items : list ProcessInfo) (e : option exn)
  : Mapchete :=
  mkMapchete (Ok n) (fun _ _ => mkBatch items e).

(** A machine with [cpus] CPUs on which every configuration opens as
    [mp]. *)
Definition env_of (cpus : Z) (mp : Mapchete) : Env :=
  mkEnv cpus
    (fun _ => Ok [])
    (fun _ => Ok (mkPyramid "geodetic" 1))
    (fun _ zrc => Ok (mkTile zrc (fst (fst zrc)) unit_bounds))
    (fun _ _ b _ _ => Ok b)
    (fun _ => Ok mp).

(** [execute("foo.mapchete")], all defaults. *)
Definition defaults : ExecuteArgs :=
  mkExecuteArgs (ConfigPath "foo.mapchete") None None None None None None
    None None false "continue" None None None None None false.

(** [execute("foo.mapchete", as_iterator=True)]. *)
Definition lazy : ExecuteArgs :=
  mkExecuteArgs (ConfigPath "foo.mapchete") None None None None None None
    None None false "continue" None None None None None true.

(** [execute("foo.mapchete", zoom=7, bounds=..., tile=(5, 3, 2),
    overwrite=True, mode="readonly", multi=2, as_iterator=True)]. *)
Definition single_tile : ExecuteArgs :=
  mkExecuteArgs (ConfigPath "foo.mapchete") (Some (ZoomInt 7)) None None
    (Some (mkBounds 2%Q 2%Q 3%Q 3%Q)) None None None (Some (5, 3, 2))
    true "readonly" (Some 2) None None None None true.

(** Five tiles; the batch completes two of them. *)
Definition mp_five : Mapchete := mp_of 5 [info 1; info 2] None.

(** Three tiles; the third task raises after two have completed. *)
Definition mp_failing : Mapchete :=
  mp_of 3 [info 1; info 2] (Some (Exception "task failed")).

(** A process object whose [count_tiles] raises. *)
Definition mp_uncountable : Mapchete :=
  mkMapchete (Raise (Exception "cannot count")) (fun _ _ => mkBatch [] None).

(** A process object whose [count_tiles] is interrupted from the
    keyboard. *)
Definition mp_interrupted : Mapchete :=
  mkMapchete (Raise KeyboardInterrupt) (fun _ _ => mkBatch [] None).

(** A [Job] of [total] items over [mp_five], not yet iterated. *)
Definition job_of (total : Z) : ExecuteJob :=
  Job.mk _msg_wrapper (EmptyCallback, mp_five) (mkBatchKwargs None None None)
    None (mkExecutorKwargs None None None) true total [].

Definition convert_args : Cli.ConvertArgs :=
  Cli.mkConvertArgs "in_dir" "out_dir" true None false false false None.

End Scenario.

(* ================================================================== *)
(** ** Messages in a trace *)
(* ================================================================== *)

(** The texts a message callback was called with, in order. *)
Fixpoint msgs (tr : trace) : list string :=
  match tr with
  | [] => []
  | EvMsg s :: tr' => s :: msgs tr'
  | _ :: tr' => msgs tr'
  end.

(** The tasks that have run, in order. *)
Fixpoint processed (tr : trace) : list ProcessInfo :=
  match tr with
  | [] => []
  | EvProcessed p :: tr' => p :: processed tr'
  | _ :: tr' => processed tr'
  end.

(** What the wrapper logs for one item when nothing raises: the task,
    and the message once the consumer has come back for more. *)
Definition item_events (cb : Callable) (msg_of : ProcessInfo -> string)
    (p : ProcessInfo) : list event :=
  match cb with
  | UserCallback _ => [EvProcessed p; EvMsg (msg_of p)]
  | EmptyCallback => [EvProcessed p]
  end.

(** A callback that never raises. *)
Definition quiet (cb : Callable) : Prop :=
  match cb with
  | UserCallback f => forall s, f s = None
  | EmptyCallback => True
  end.

(** The texts a callback receives for the messages [ms]: none at all for
    the [_empty_callback]. *)
Definition heard (cb : Callable) (ms : list string) : list string :=
  match cb with
  | UserCallback _ => ms
  | EmptyCallback => []
  end.

(* ================================================================== *)
(** ** Exceptions and results of the option and input/output helpers *)
(* ================================================================== *)

Module Exc.

(** The exception classes that [_validate_bidx] and the functions of
    [io_funcs.py] raise themselves, and [Foreign] for what a collaborator
    raises: whether it derives from [Exception], and its [str]. *)
Inductive error : Type :=
| ValueError (msg : string)
| KeyError (key : string)
| AssertionError
| TypeError (msg : string)
| AttributeError (msg : string)
| ZeroDivisionError
| BadParameter (msg : string)
| Foreign (is_exception : bool) (msg : string).

(** Caught by [except Exception]. *)
Definition derives_Exception (e : error) : bool :=
  match e with
  | Foreign b _ => b
  | _ => true
  end.

(** [str(e)]. *)
Definition str (e : error) : string :=
  match e with
  | ValueError m | TypeError m | AttributeError m | BadParameter m
  | Foreign _ m => m
  | KeyError k => ("'" ++ k ++ "'")%string
  | AssertionError => ""
  | ZeroDivisionError => "float division by zero"
  end.

Inductive res (A : Type) : Type :=
| Ret (a : A)
| Err (e : error).
Arguments Ret {A} a.
Arguments Err {A} e.

Definition rbind {A B} (c : res A) (k : A -> res B) : res B :=
  match c with
  | Ret a => k a
  | Err e => Err e
  end.

End Exc.
Import Exc.

Notation "'let*' x ':=' c 'in' k" := (rbind c (fun x => k))
  (at level 10, x name, c at level 100, k at level 200) : py_scope.
Notation "'let*' ' p ':=' c 'in' k" :=
  (rbind c (fun x => match x with p => k end))
  (at level 10, p pattern, c at level 100, k at level 200) : py_scope.

(** [[f(x) for x in l]], stopping at the first exception. *)
Fixpoint res_map {A B} (f : A -> res B) (l : list A) : res (list B) :=
  match l with
  | [] => Ret []
  | x :: l' =>
      let* y := f x in
      let* ys := res_map f l' in
      Ret (y :: ys)
  end.

(** [assert b]. *)
Definition assert_ (b : bool) : res unit :=
  if b then Ret tt else Err AssertionError.

(* ================================================================== *)
(** ** Python strings and dictionaries *)
(* ================================================================== *)

From Stdlib Require Import Ascii.

(** The first field of [s] before [sep], and the fields after it. *)
Fixpoint split_first (sep : Ascii.ascii) (s : string) : string * list string :=
  match s with
  | EmptyString => (EmptyString, [])
  | String c rest =>
      let '(h, t) := split_first sep rest in
      if Ascii.eqb c sep then (EmptyString, h :: t) else (String c h, t)
  end.

(** [s.split(sep)] for a separator of one character. *)
Definition split (sep : Ascii.ascii) (s : string) : list string :=
  let '(h, t) := split_first sep s in h :: t.

(** [sep.join(fields)]. *)
Fixpoint join (sep : Ascii.ascii) (fields : list string) : string :=
  match fields with
  | [] => EmptyString
  | [f] => f
  | f :: rest => (f ++ String sep (join sep rest))%string
  end.

(** [s.count(c)] for one character. *)
Fixpoint count_char (c : Ascii.ascii) (s : string) : nat :=
  match s with
  | EmptyString => 0%nat
  | String c' rest =>
      if Ascii.eqb c' c then S (count_char c rest) else count_char c rest
  end.

(** A [dict] with [str] keys, in insertion order. *)
Definition dict (V : Type) : Type := list (string * V).

(** [d.get(k)]; [d[k]] raises [KeyError] where this is [None]. *)
Fixpoint dict_get {V} (d : dict V) (k : string) : option V :=
  match d with
  | [] => None
  | (k', v) :: d' => if String.eqb k' k then Some v else dict_get d' k
  end.

(** [d[k] = v]: in place for a key that is there, at the end otherwise. *)
Fixpoint dict_set {V} (d : dict V) (k : string) (v : V) : dict V :=
  match d with
  | [] => [(k, v)]
  | (k', v') :: d' =>
      if String.eqb k' k then (k', v) :: d' else (k', v') :: dict_set d' k v
  end.

(** [x in xs] for a list of [str]. *)
Definition str_in (x : string) (xs : list string) : bool :=
  existsb (String.eqb x) xs.

(* ================================================================== *)
(** ** mapchete/cli/default/convert.py: [_validate_bidx] *)
(* ================================================================== *)

Module Bidx.
Section ValidateBidx.

(** [int(s)] for a [str]: the value, or [None] for the [ValueError] that
    is all it raises on a [str]. *)
Variable int_ : string -> option Z.

(** [list(map(int, fields))]: stops at the first field that fails. *)
Fixpoint map_int (fields : list string) : option (list Z) :=
  match fields with
  | [] => Some []
  | f :: rest =>
      match int_ f with
      | None => None
      | Some z =>
          match map_int rest with
          | None => None
          | Some zs => Some (z :: zs)
          end
      end
  end.

(** [_validate_bidx(ctx, param, bidx)]; [ctx] and [param] are not used. *)
Definition _validate_bidx (bidx : option string) : res (option (list Z)) :=
  match bidx with
  | Some s =>
      if truthy_str bidx then
        match map_int (split ","%char s) with
        | Some zs => Ret (Some zs)
        | None =>
            Err (BadParameter "band indexes must be positive integer values")
        end
      else Ret None
  | None => Ret None
  end.

End ValidateBidx.
End Bidx.

(* ================================================================== *)
(** ** mapchete/io_utils/io_funcs.py *)
(* ================================================================== *)

Module IoFuncs.

(** A shapely geometry: its [geom_type], its [is_valid], what it holds
    (kept as its WKT), and its members when it is a collection. *)
#[warnings="-register-all"]
Inductive Geometry : Type :=
| mkGeometry (geom_type : string) (is_valid : bool) (wkt : string)
    (geoms : list Geometry).

Definition geom_type (g : Geometry) : string :=
  let '(mkGeometry t _ _ _) := g in t.
Definition is_valid (g : Geometry) : bool :=
  let '(mkGeometry _ v _ _) := g in v.
Definition geoms (g : Geometry) : list Geometry :=
  let '(mkGeometry _ _ _ gs) := g in gs.

(** The multipart classes of shapely that the module imports. *)
Inductive MultiClass : Type := MultiPoint | MultiLineString | MultiPolygon.

Definition MultiClass_eqb (a b : MultiClass) : bool :=
  match a, b with
  | MultiPoint, MultiPoint | MultiLineString, MultiLineString
  | MultiPolygon, MultiPolygon => true
  | _, _ => false
  end.

(** The [geom_type] of the instances of a class. *)
Definition class_name (m : MultiClass) : string :=
  match m with
  | MultiPoint => "MultiPoint"
  | MultiLineString => "MultiLineString"
  | MultiPolygon => "MultiPolygon"
  end.

(** [isinstance(geometry, m)]: the multipart classes have no subclasses,
    so it is decided by the [geom_type]. *)
Definition isinstance (g : Geometry) (m : MultiClass) : bool :=
  String.eqb (geom_type g) (class_name m).

(** The dictionary [multipart_geoms] of [clean_geometry_type]. *)
Definition multipart_geoms : dict MultiClass :=
  [("Point", MultiPoint); ("LineString", MultiLineString);
   ("Polygon", MultiPolygon); ("MultiPoint", MultiPoint);
   ("MultiLineString", MultiLineString); ("MultiPolygon", MultiPolygon)].

Section Geometries.

(** [multipart_geom(subgeoms)]: the constructors of shapely, given the
    list that the recursive calls return, [None]s included. *)
Variable construct : MultiClass -> list (option Geometry) -> res Geometry.

(** [clean_geometry_type(geometry, target_type, allow_multipart=True)]. *)
Fixpoint clean_geometry_type (geometry : Geometry) (target_type : string)
    (allow_multipart : bool) {struct geometry} : res (option Geometry) :=
  match dict_get multipart_geoms target_type with
  | None =>
      Err (ValueError ("target type is not supported: " ++ target_type)%string)
  | Some multipart_geom =>
      match geometry with
      | mkGeometry gt valid _ members =>
          let* _ := assert_ valid in
          if String.eqb gt target_type then Ret (Some geometry)
          else if String.eqb gt "GeometryCollection" then
            let* subgeoms :=
              (fix each (l : list Geometry) : res (list (option Geometry)) :=
                 match l with
                 | [] => Ret []
                 | subgeom :: l' =>
                     let* c := clean_geometry_type subgeom target_type
                                 allow_multipart in
                     let* cs := each l' in
                     Ret (c :: cs)
                 end) members in
            let* out_geom := construct multipart_geom subgeoms in
            Ret (Some out_geom)
          else if allow_multipart && isinstance geometry multipart_geom
          then Ret (Some geometry)
          else
            match dict_get multipart_geoms gt with
            | None => Err (KeyError gt)
            | Some m =>
                if MultiClass_eqb m multipart_geom then Ret (Some geometry)
                else Ret None
            end
      end
  end.

End Geometries.

(** The geometry families that [multipart_geoms] groups. *)
Definition family (t : string) : option MultiClass :=
  dict_get multipart_geoms t.

(** Python [float]s and the operations the module uses on them, left
    uninterpreted: [0.0], [-x], [x - y], [x + y], [x * y], [x / y] for a
    divisor that is not zero, [x == 0.0], [float(i)] and [x <= y]. *)
Record FloatOps (F : Type) : Type := mkFloatOps {
  fzero : F;
  fneg : F -> F;
  fsub : F -> F -> F;
  fadd : F -> F -> F;
  fmul : F -> F -> F;
  fdiv_nz : F -> F -> F;
  fis_zero : F -> bool;
  float_ : Z -> F;
  fle : F -> F -> bool
}.

Section Floats.
Variable F : Type.
Variable ops : FloatOps F.

(** [x / y] on floats. *)
Definition fdiv (x y : F) : res F :=
  if fis_zero ops y then Err ZeroDivisionError else Ret (fdiv_nz ops x y).

(** A [tilematrix.TilePyramid]: what the module reads from it. *)
Record TilePyramid : Type := mkTilePyramid {
  tp_crs : option string;
  tile_size : Z;
  pixel_x_size : Z -> F
}.

(** Values of a rasterio metadata dictionary. *)
Inductive MetaValue : Type :=
| MInt (z : Z)
| MTuple6 (t : F * F * F * F * F * F)
| MObject (repr : string).

(** An opened raster dataset: what the module reads from it. *)
Record Raster : Type := mkRaster {
  r_crs : option string;
  r_bounds : F * F * F * F;           (* left, bottom, right, top *)
  r_pixelsize : F;                    (* affine[0] *)
  r_width : Z;
  r_height : Z;
  r_meta : dict MetaValue
}.

(** The libraries the module calls: [os.path.splitext(f)[1][1:]],
    [fiona.open] (the [CRS] of the file and its bounds),
    [rasterio.open], shapely's [box], [bounds] and [buffer(0)], the OGR
    round trips that segmentize and that transform a geometry, equality
    of two [CRS], and the [TilePyramid] constructor. *)
Record Lib : Type := mkLib {
  file_ext : string -> string;
  fiona_open : string -> res (option string * (F * F * F * F));
  rasterio_open : string -> res Raster;
  box : F * F * F * F -> Geometry;
  bounds_of : Geometry -> F * F * F * F;
  buffer0 : Geometry -> res Geometry;
  ogr_segmentize : Geometry -> F -> res Geometry;
  ogr_transform : string -> string -> Geometry -> res Geometry;
  crs_eq : option string -> option string -> bool;
  new_pyramid : string -> res TilePyramid
}.

Variable lib : Lib.

(** [crs.to_string()] of a [CRS] that is truthy. *)
Definition to_string (crs : option string) : string :=
  match crs with
  | Some s => s
  | None => ""
  end.

(** [reproject_geometry(geometry, src_crs=None, dst_crs=None)]. *)
Definition reproject_geometry (geometry : Geometry)
    (src_crs dst_crs : option string) : res Geometry :=
  let* _ := assert_ (truthy_str src_crs) in
  let* _ := assert_ (truthy_str dst_crs) in
  let* _ := assert_ (is_valid geometry) in
  let* out_geom :=
    ogr_transform lib (to_string src_crs) (to_string dst_crs) geometry in
  if is_valid out_geom then Ret out_geom
  else Err (ValueError "reprojected geometry is not valid").

(** [_get_segmentize_value(input_file, tile_pyramid)]. *)
Definition _get_segmentize_value (input_file : string)
    (tile_pyramid : TilePyramid) : res F :=
  let* input_raster := rasterio_open lib input_file in
  Ret (fmul ops (r_pixelsize input_raster)
         (float_ ops (tile_size tile_pyramid))).

(** Lines 134 to 143 of [file_bbox]: validate and, if necessary, try to
    fix the output geometry. *)
Definition validated (out_bbox : Geometry) : res Geometry :=
  if is_valid out_bbox then Ret out_bbox
  else
    match (let* cleaned := buffer0 lib out_bbox in
           let* _ := assert_ (is_valid cleaned) in
           Ret cleaned) with
    | Ret cleaned => Ret cleaned
    | Err e =>
        if derives_Exception e
        then
          Err (TypeError ("invalid file bbox geometry: " ++ Exc.str e)%string)
        else Err e
    end.

(** [file_bbox(input_file, tile_pyramid)]. *)
Definition file_bbox (input_file : string) (tile_pyramid : TilePyramid)
  : res Geometry :=
  let out_crs := tp_crs tile_pyramid in
  let is_vector_file := str_in (file_ext lib input_file) ["shp"; "geojson"] in
  let* '(inp_crs, bounds) :=
    (if is_vector_file then fiona_open lib input_file
     else
       let* inp := rasterio_open lib input_file in
       Ret (r_crs inp, r_bounds inp)) in
  let bbox := box lib bounds in
  let* out_bbox :=
    (if negb (crs_eq lib inp_crs out_crs) then
       let* bbox :=
         (if negb is_vector_file then
            let* segmentize := _get_segmentize_value input_file tile_pyramid in
            ogr_segmentize lib bbox segmentize
          else Ret bbox) in
       reproject_geometry bbox inp_crs out_crs
     else Ret bbox) in
  validated out_bbox.

(** Lines 204 to 208 of [get_best_zoom_level]: the loop over the zoom
    levels still to try. *)
Fixpoint first_fitting (tile_pyramid : TilePyramid) (avg_resolution : F)
    (zooms : list Z) : res Z :=
  match zooms with
  | [] => Err (ValueError "no fitting zoom level found")
  | zoom :: rest =>
      if fle ops (pixel_x_size tile_pyramid zoom) avg_resolution
      then Ret (zoom - 1)
      else first_fitting tile_pyramid avg_resolution rest
  end.

(** [range(lo, hi)] for [lo = 0]. *)
Definition range0 (hi : nat) : list Z := map Z.of_nat (seq 0 hi).

(** Lines 195 to 202 of [get_best_zoom_level]: the average resolution of
    a raster of [width] by [height] pixels over the box. *)
Definition avg_resolution_of (b : F * F * F * F) (width height : Z) : res F :=
  let '(xmin, ymin, xmax, ymax) := b in
  let x_dif := fsub ops xmax xmin in
  let y_dif := fsub ops ymax ymin in
  let size := float_ ops (width + height) in
  let* a1 := fdiv x_dif (float_ ops width) in
  let* a2 := fdiv (float_ ops width) size in
  let* b1 := fdiv y_dif (float_ ops height) in
  let* b2 := fdiv (float_ ops height) size in
  Ret (fadd ops (fmul ops a1 a2) (fmul ops b1 b2)).

(** [get_best_zoom_level(input_file, tile_pyramid_type)]. *)
Definition get_best_zoom_level (input_file tile_pyramid_type : string)
  : res Z :=
  let* tile_pyramid := new_pyramid lib tile_pyramid_type in
  let* input_bbox := file_bbox input_file tile_pyramid in
  let* src := rasterio_open lib input_file in
  let* avg_resolution :=
    avg_resolution_of (bounds_of lib input_bbox) (r_width src) (r_height src) in
  first_fitting tile_pyramid avg_resolution (range0 25).

(** A process tile: what [_read_metadata] reads from it, each method at
    a pixelbuffer. *)
Record TileObj : Type := mkTileObj {
  t_zoom : Z;
  t_bounds : Z -> F * F * F * F;
  t_shape : Z -> Z * Z;               (* height, width *)
  t_affine : Z -> string
}.

(** The object [_read_metadata] is a method of. *)
Record Reader : Type := mkReader {
  output_profile : dict MetaValue;    (* self.process.output.profile *)
  input_file : string;
  tile_pyramid : TilePyramid;
  tile : TileObj;
  pixelbuffer : Z
}.

(** [_read_metadata(self, tile_type=None)]. *)
Definition _read_metadata (self : Reader) (tile_type : option string)
  : res (dict MetaValue) :=
  let* out_meta :=
    match tile_type with
    | Some t =>
        if str_in t ["RasterProcessTile"; "NumpyTile"]
        then Ret (output_profile self)
        else if String.eqb t "RasterFileTile" then
          let* src := rasterio_open lib (input_file self) in
          Ret (r_meta src)
        else Err (AttributeError "tile_type required")
    | None => Err (AttributeError "tile_type required")
    end in
  (* create geotransform *)
  let px_size := pixel_x_size (tile_pyramid self) (t_zoom (tile self)) in
  let '(left_, _, _, _) := t_bounds (tile self) (pixelbuffer self) in
  let '(_, _, _, top) := t_bounds (tile self) (pixelbuffer self) in
  let tile_geotransform :=
    (left_, px_size, fzero ops, top, fzero ops, fneg ops px_size) in
  let out_meta :=
    dict_set out_meta "width"
      (MInt (snd (t_shape (tile self) (pixelbuffer self)))) in
  let out_meta :=
    dict_set out_meta "height"
      (MInt (fst (t_shape (tile self) (pixelbuffer self)))) in
  let out_meta := dict_set out_meta "transform" (MTuple6 tile_geotransform) in
  let out_meta :=
    dict_set out_meta "affine"
      (MObject (t_affine (tile self) (pixelbuffer self))) in
  Ret out_meta.

End Floats.

Arguments MInt {F} z.
Arguments MTuple6 {F} t.
Arguments MObject {F} repr.

End IoFuncs.

(* ================================================================== *)
(** ** Concrete inputs for the option and input/output helpers *)
(* ================================================================== *)

Module IoScenario.
Import IoFuncs.

(** An [int] for runs: an optional minus sign and decimal digits. *)
Fixpoint digits (acc : Z) (s : string) : option Z :=
  match s with
  | EmptyString => Some acc
  | String c rest =>
      let n := Z.of_nat (nat_of_ascii c) in
      if (48 <=? n) && (n <=? 57) then digits (10 * acc + (n - 48)) rest
      else None
  end.

Definition int_decimal (s : string) : option Z :=
  match s with
  | EmptyString => None
  | String "-" (String c rest) => option_map Z.opp (digits 0 (String c rest))
  | String "-" EmptyString => None
  | _ => digits 0 s
  end.

(** Floats as rationals, for runs. *)
Definition q_ops : FloatOps Q :=
  mkFloatOps 0%Q Qopp Qminus Qplus Qmult Qdiv (fun x => Qeq_bool x 0)
    inject_Z Qle_bool.

Definition construct_ok (m : MultiClass) (subs : list (option Geometry))
  : res Geometry :=
  Ret (mkGeometry (class_name m) true "MULTI" []).

Definition polygon : Geometry :=
  mkGeometry "Polygon" true "POLYGON ((0 0, 1 0, 1 1, 0 0))" [].
Definition point : Geometry := mkGeometry "Point" true "POINT (0 0)" [].
Definition ring : Geometry :=
  mkGeometry "LinearRing" true "LINEARRING (0 0, 1 0, 1 1, 0 0)" [].
Definition bbox_geom : Geometry :=
  mkGeometry "Polygon" true "POLYGON ((0 0, 10 0, 10 10, 0 10, 0 0))" [].

Definition wgs84 : option string := Some "+init=epsg:4326".

(** The geodetic pyramid: 180 degrees over 256 pixels at zoom 0. *)
Definition geodetic : TilePyramid Q :=
  mkTilePyramid wgs84 256 (fun zoom => (180 # 256) / inject_Z (2 ^ zoom))%Q.

(** The mercator pyramid: the equator over 256 pixels at zoom 0. *)
Definition mercator : TilePyramid Q :=
  mkTilePyramid (Some "+init=epsg:3857") 256
    (fun zoom => (40075016 # 256) / inject_Z (2 ^ zoom))%Q.

(** A raster of 100 by 100 pixels over 10 by 10 degrees. *)
Definition raster : Raster Q :=
  mkRaster wgs84 (0, 0, 10, 10)%Q (1 # 10)%Q 100 100
    [("driver", MObject "GTiff"); ("width", MInt 100); ("height", MInt 100)].

Definition same_crs (a b : option string) : bool :=
  match a, b with
  | Some x, Some y => String.eqb x y
  | None, None => true
  | _, _ => false
  end.

Definition lib : Lib Q :=
  mkLib (fun f => if String.eqb f "areas.shp" then "shp" else "tif")
    (fun _ => Ret (wgs84, (0, 0, 10, 10)%Q))
    (fun _ => Ret raster)
    (fun _ => bbox_geom)
    (fun _ => (0, 0, 10, 10)%Q)
    (fun g => Ret g)
    (fun g _ => Ret g)
    (fun _ _ g => Ret g)
    same_crs
    (fun _ => Ret geodetic).

Definition a_tile : TileObj Q :=
  mkTileObj 5 (fun _ => (0, 0, 10, 10)%Q) (fun _ => (256, 512))
    (fun _ => "Affine(0.02, 0.0, 0.0, 0.0, -0.02, 10.0)").

Definition reader : Reader Q :=
  mkReader [("driver", MObject "GTiff"); ("width", MInt 1)] "dem.tif"
    geodetic a_tile 0.

End IoScenario.

(* ================================================================== *)
(** ** Properties of the effect and generator layer *)
(* ================================================================== *)

Lemma exit_count_app (s t : trace) :
  exit_count (s ++ t) = (exit_count s + exit_count t)%nat.
Proof.
  induction s as [|ev s IH]; simpl; [reflexivity|].
  destruct ev; simpl; rewrite IH; reflexivity.
Qed.

Lemma opens_app (s t : trace) : opens (s ++ t) = opens s ++ opens t.
Proof.
  induction s as [|ev s IH]; simpl; [reflexivity|].
  destruct ev; simpl; rewrite IH; reflexivity.
Qed.

Lemma batch_calls_app (s t : trace) :
  batch_calls (s ++ t) = batch_calls s ++ batch_calls t.
Proof.
  induction s as [|ev s IH]; simpl; [reflexivity|].
  destruct ev; simpl; rewrite IH; reflexivity.
Qed.

Lemma not_exit_count (s : trace) :
  forallb not_exit s = true -> exit_count s = 0%nat.
Proof.
  induction s as [|ev s IH]; simpl; [reflexivity|].
  destruct ev; simpl; intros H; try (apply IH; assumption); discriminate.
Qed.

Lemma not_open_opens (s : trace) :
  forallb not_open s = true -> opens s = [].
Proof.
  induction s as [|ev s IH]; simpl; [reflexivity|].
  destruct ev; simpl; intros H; try (apply IH; assumption); discriminate.
Qed.

Section GenFacts.
Context {A : Type}.
Implicit Types (g : Gen A) (tr : trace).

(** A body only appends to the trace it starts from. *)
Lemma run_frame g : forall tr,
  run g tr = (fst (run g []), tr ++ snd (run g [])).
Proof.
  induction g as [| e | ev k IH | a kn _ kc _]; intros tr; simpl;
    try (rewrite app_nil_r; reflexivity).
  rewrite IH, (IH [ev]); simpl. now rewrite <- app_assoc.
Qed.

Lemma drain_frame g : forall tr,
  drain g tr = (fst (drain g []), tr ++ snd (drain g [])).
Proof.
  induction g as [| e | ev k IH | a kn IH kc _]; intros tr; simpl;
    try (rewrite app_nil_r; reflexivity).
  - rewrite IH, (IH [ev]); simpl. now rewrite <- app_assoc.
  - rewrite IH. destruct (drain kn []) as [[xs e] s]; reflexivity.
Qed.

(** Draining a [try ... finally] drains the body and then runs the
    final event, whatever way the body ended. *)
Lemma drain_try_finally g ev : forall tr,
  drain (try_finally g (GEmit ev)) tr
  = (fst (drain g tr), snd (drain g tr) ++ [ev]).
Proof.
  induction g as [| e | ev' k IH | a kn IH kc _]; intros tr; simpl;
    try reflexivity.
  - apply IH.
  - rewrite IH. destruct (drain kn tr) as [[xs e] s]; reflexivity.
Qed.

Lemma drain_all (P : event -> bool) g :
  gen_all P g = true -> forallb P (snd (drain g [])) = true.
Proof.
  induction g as [| e | ev k IH | a kn IH kc _]; simpl; intros H;
    try reflexivity.
  - apply andb_prop in H as [Hev Hk].
    rewrite (drain_frame k [ev]); simpl. rewrite Hev. now apply IH.
  - apply andb_prop in H as [Hn _].
    specialize (IH Hn). destruct (drain kn []) as [[xs e] s]; exact IH.
Qed.

Lemma try_finally_all (P : event -> bool) g ev :
  gen_all P g = true -> P ev = true ->
  gen_all P (try_finally g (GEmit ev)) = true.
Proof.
  intros Hg Hev.
  induction g as [| e | ev' k IH | a kn IHn kc IHc]; simpl in *;
    try (now rewrite Hev).
  - apply andb_prop in Hg as [H1 H2]. now rewrite H1, IH.
  - apply andb_prop in Hg as [H1 H2]. now rewrite IHn, IHc.
Qed.
End GenFacts.

Lemma for_in_all {A B} (P : event -> bool) (inner : Gen A)
    (body : A -> Gen B -> Gen B) :
  gen_all P inner = true ->
  (forall a k, gen_all P k = true -> gen_all P (body a k) = true) ->
  gen_all P (for_in inner body) = true.
Proof.
  intros Hin Hbody.
  induction inner as [| e | ev k IH | a kn IHn kc _]; simpl in *;
    try reflexivity.
  - apply andb_prop in Hin as [H1 H2]. now rewrite H1, IH.
  - apply andb_prop in Hin as [H1 _]. apply Hbody. now apply IHn.
Qed.

(* ================================================================== *)
(** ** Properties of [_msg_wrapper] and of the Job that runs it *)
(* ================================================================== *)

Lemma batch_gen_items_all (P : event -> bool) items e :
  (forall p, P (EvProcessed p) = true) ->
  gen_all P (batch_gen_items items e) = true.
Proof.
  intros HP. induction items as [|p rest IH]; simpl.
  - destruct e; reflexivity.
  - now rewrite HP, IH.
Qed.

Lemma gcall_all {A} (P : event -> bool) cb s (k : Gen A) :
  (forall m, P (EvMsg m) = true) ->
  gen_all P k = true -> gen_all P (gcall cb s k) = true.
Proof.
  intros HP Hk. destruct cb as [f|]; simpl; [|exact Hk].
  rewrite HP. destruct (f s); [reflexivity | exact Hk].
Qed.

Section WrapperEvents.
Variable P : event -> bool.
Hypothesis P_processed : forall p, P (EvProcessed p) = true.
Hypothesis P_msg : forall m, P (EvMsg m) = true.
Hypothesis P_exit : P EvExit = true.

Lemma msg_wrapper_all cb mp ex kw :
  P (EvBatchProcessor ex kw) = true ->
  gen_all P (_msg_wrapper (cb, mp) ex kw) = true.
Proof.
  intros Hb. unfold _msg_wrapper.
  apply try_finally_all; [|exact P_exit].
  apply for_in_all.
  - unfold batch_processor, batch_gen; simpl.
    now rewrite Hb, batch_gen_items_all.
  - intros p k Hk. simpl. now rewrite gcall_all.
Qed.

Lemma job_run_all (j : ExecuteJob) :
  Job.func j = _msg_wrapper ->
  (forall ex, P (EvExecutorEnter ex) = true) ->
  P EvExecutorExit = true ->
  (forall ex, P (EvBatchProcessor ex (Job.fkwargs j)) = true) ->
  gen_all P (Job.run_ j) = true.
Proof.
  intros Hf Hen Hex Hb. unfold Job.run_.
  destruct (Job.total j =? 0); [reflexivity|]. simpl.
  rewrite Hen. apply try_finally_all; [|exact Hex].
  rewrite Hf. destruct (Job.fargs j) as [cb mp]. now apply msg_wrapper_all.
Qed.
End WrapperEvents.

(** Exhausting the wrapper, or having it raise mid-stream, releases the
    process object once. *)
Lemma msg_wrapper_drain_exit_once cb mp ex kw tr :
  exit_count (snd (drain (_msg_wrapper (cb, mp) ex kw) tr))
  = S (exit_count tr).
Proof.
  unfold _msg_wrapper. rewrite drain_try_finally.
  rewrite (drain_frame _ tr). cbn [fst snd].
  rewrite !exit_count_app.
  match goal with
  | |- context [exit_count (snd (drain ?g []))] =>
      rewrite (not_exit_count (snd (drain g [])))
  end; [simpl; lia|].
  apply drain_all, for_in_all.
  - unfold batch_processor, batch_gen; simpl.
    now apply batch_gen_items_all.
  - intros p k Hk; simpl. now rewrite gcall_all.
Qed.

(* ================================================================== *)
(** ** Inversion of [execute] *)
(* ================================================================== *)

Lemma bind_inv {A B} (c : M A) (k : A -> M B) tr r tr' :
  bind c k tr = (r, tr') ->
  (exists a t, c tr = (Ok a, t) /\ k a t = (r, tr'))
  \/ (exists e, c tr = (Raise e, tr') /\ r = Raise e).
Proof.
  unfold bind. destruct (c tr) as [[a|e] t]; intros H.
  - left; eauto.
  - right; exists e. inversion H; subst; auto.
Qed.

Lemma lift_inv {A} (x : result A) tr r tr' :
  lift x tr = (r, tr') -> r = x /\ tr' = tr.
Proof. unfold lift; intros H; inversion H; auto. Qed.

(** Resolving the tile logs nothing. *)
Lemma select_tile_trace env a tr r tr' :
  select_tile env a tr = (r, tr') -> tr' = tr.
Proof.
  unfold select_tile, bind, lift, ret.
  destruct (tile a);
    repeat match goal with
           | |- context [match ?x with _ => _ end] => destruct x
           end; intros H; inversion H; reflexivity.
Qed.

(** With a tile selector, bounds and zoom are those of the tile. *)
Lemma select_tile_Some env a zrc tr tl b z tr' :
  tile a = Some zrc ->
  select_tile env a tr = (Ok (tl, b, z), tr') ->
  exists rc py t,
    raw_conf env (mapchete_config a) = Ok rc /\
    raw_conf_process_pyramid env rc = Ok py /\
    pyramid_tile env py zrc = Ok t /\
    tl = Some t /\ b = Some (tile_bounds t) /\
    z = Some (ZoomInt (tile_zoom t)).
Proof.
  intros Ht. unfold select_tile, bind, lift, ret. rewrite Ht.
  destruct (raw_conf env (mapchete_config a)) as [rc|] eqn:E1; [|discriminate].
  destruct (raw_conf_process_pyramid env rc) as [py|] eqn:E2; [|discriminate].
  destruct (pyramid_tile env py zrc) as [t|] eqn:E3; [|discriminate].
  intros H; inversion H; subst. exists rc, py, t. auto 10.
Qed.

(** Without one, there is no tile and the zoom is the caller's. *)
Lemma select_tile_None env a tr tl b z tr' :
  tile a = None ->
  select_tile env a tr = (Ok (tl, b, z), tr') ->
  tl = None /\ z = zoom a.
Proof.
  intros Ht. unfold select_tile, bind, lift, ret. rewrite Ht.
  destruct (raw_conf env (mapchete_config a)) as [rc|]; [|discriminate].
  destruct (bounds_from_opts _ _ _ _ _ _) as [b'|]; [|discriminate].
  intros H; inversion H; auto.
Qed.

(** A message callback logs at most its message. *)
Lemma call_trace cb s tr r tr' :
  call cb s tr = (r, tr') -> tr' = tr \/ tr' = tr ++ [EvMsg s].
Proof.
  destruct cb as [f|]; simpl; unfold bind, emit, ret, raise.
  - destruct (f s); intros H; inversion H; auto.
  - intros H; inversion H; auto.
Qed.

Section JobNew.
Context {FA FK : Type}.
Variables (f : FA -> Executor -> FK -> Gen ProcessInfo) (fa : FA) (fk : FK)
          (c : option string) (ek : ExecutorKwargs) (ai : bool) (n : Z).

(** The trace of a Job construction: nothing for an iterator Job, the
    whole run otherwise. *)
Lemma job_new_trace tr r tr' :
  Job.new f fa fk c ek ai n tr = (r, tr') ->
  tr' = tr ++ (if ai then []
               else snd (drain (Job.run_ (Job.mk f fa fk c ek ai n [])) [])).
Proof.
  unfold Job.new. destruct ai.
  - unfold ret; intros H; inversion H. now rewrite app_nil_r.
  - unfold bind, to_list, ret. rewrite drain_frame.
    destruct (drain _ []) as [[xs [e|]] s]; simpl;
      intros H; inversion H; reflexivity.
Qed.

(** A constructed Job holds what it was constructed from. *)
Lemma job_new_fields tr j tr' :
  Job.new f fa fk c ek ai n tr = (Ok j, tr') ->
  Job.func j = f /\ Job.fargs j = fa /\ Job.fkwargs j = fk /\
  Job.executor_concurrency j = c /\ Job.executor_kwargs j = ek /\
  Job.as_iterator j = ai /\ Job.total j = n.
Proof.
  unfold Job.new. destruct ai.
  - unfold ret; intros H; inversion H; subst; simpl; auto 10.
  - unfold bind, to_list, ret.
    destruct (drain _ tr) as [[xs [e|]] s]; simpl;
      intros H; inversion H; subst; simpl; auto 10.
Qed.
End JobNew.

(** What the [try] block of [execute] logs: the count, at most one
    message, and the run of the Job when it is consumed eagerly. *)
Lemma make_job_trace a cb m tl z mp tr r tr' :
  make_job a cb m tl z mp tr = (r, tr') ->
  exists ms rn,
    tr' = tr ++ EvCountTiles :: ms ++ rn /\
    (ms = [] \/ exists msg, ms = [EvMsg msg]) /\
    (as_iterator a = true -> rn = []) /\
    forall P : event -> bool,
      (forall p, P (EvProcessed p) = true) ->
      (forall msg, P (EvMsg msg) = true) ->
      P EvExit = true ->
      (forall ex, P (EvExecutorEnter ex) = true) ->
      P EvExecutorExit = true ->
      (forall ex,
         P (EvBatchProcessor ex
              (mkBatchKwargs tl m (if truthy_obj tl then None else z)))
         = true) ->
      forallb P rn = true.
Proof.
  unfold make_job, count_tiles. intros H.
  apply bind_inv in H as [(n & t & H1 & H)|(e & H1 & ->)].
  2:{ apply bind_inv in H1 as [(u & t & H1 & H2)|(e' & H1 & _)].
      - apply lift_inv in H2 as [_ ->]. unfold emit in H1; inversion H1.
        exists [], []. repeat split; auto.
      - unfold emit in H1; discriminate. }
  apply bind_inv in H1 as [(u & t1 & H1 & H2)|(e' & H1 & _)];
    [|unfold emit in H1; discriminate].
  apply lift_inv in H2 as [_ ->]. unfold emit in H1; inversion H1; subst t1.
  clear H1.
  assert (Hcall : forall s r2 t2,
             call cb s (tr ++ [EvCountTiles]) = (r2, t2) ->
             exists ms, t2 = tr ++ EvCountTiles :: ms /\
                        (ms = [] \/ exists msg, ms = [EvMsg msg])).
  { intros s r2 t2 Hc. apply call_trace in Hc as [->| ->].
    - exists []. split; [reflexivity | now left].
    - exists [EvMsg s]. rewrite <- app_assoc. split; [reflexivity|].
      right; now exists s. }
  apply bind_inv in H as [(u' & t2 & Hc & H)|(e & Hc & ->)].
  - assert (Hm : exists ms, t2 = tr ++ EvCountTiles :: ms /\
                            (ms = [] \/ exists msg, ms = [EvMsg msg])).
    { destruct (truthy_obj tl); eapply Hcall; exact Hc. }
    destruct Hm as (ms & -> & Hms).
    apply job_new_trace in H. subst tr'.
    exists ms. eexists. split.
    { rewrite <- app_assoc. simpl. reflexivity. }
    split; [exact Hms|]. split.
    { intros ->. reflexivity. }
    intros P Hp Hmsg Hexit Hen Hex Hb.
    destruct (as_iterator a); [reflexivity|].
    apply drain_all, job_run_all; auto.
  - assert (Hm : exists ms, tr' = tr ++ EvCountTiles :: ms /\
                            (ms = [] \/ exists msg, ms = [EvMsg msg])).
    { destruct (truthy_obj tl); eapply Hcall; exact Hc. }
    destruct Hm as (ms & -> & Hms).
    exists ms, []. rewrite app_nil_r. repeat split; auto.
Qed.

(** A Job that [execute]'s [try] block returns. *)
Lemma make_job_Ok a cb m tl z mp tr j tr' :
  make_job a cb m tl z mp tr = (Ok j, tr') ->
  exists n,
    mp_count_tiles mp = Ok n /\
    Job.func j = _msg_wrapper /\
    Job.fargs j = (cb, mp) /\
    Job.fkwargs j = mkBatchKwargs tl m (if truthy_obj tl then None else z) /\
    Job.executor_concurrency j = concurrency_of (dask_scheduler a) n m /\
    Job.as_iterator j = as_iterator a /\
    Job.total j = (if truthy_obj tl then 1 else n).
Proof.
  unfold make_job, count_tiles. intros H.
  apply bind_inv in H as [(n & t & H1 & H)|(e & _ & He)]; [|discriminate].
  apply bind_inv in H1 as [(u & t1 & H1 & H2)|(e' & H1 & _)];
    [|unfold emit in H1; discriminate].
  apply lift_inv in H2 as [Hn _].
  apply bind_inv in H as [(u' & t2 & Hc & H)|(e & _ & He)]; [|discriminate].
  apply job_new_fields in H as (? & ? & ? & ? & ? & ? & ?).
  exists n. auto 10.
Qed.

(** The three ways [execute] can go. *)
Lemma execute_inv env a tr0 r tr1 :
  execute env a tr0 = (r, tr1) ->
  (exists e, select_tile env a tr0 = (Raise e, tr0) /\ r = Raise e /\ tr1 = tr0)
  \/ exists tl b z,
       select_tile env a tr0 = (Ok (tl, b, z), tr0) /\
       ((exists e, mapchete_open env (open_args a b z) = Raise e /\
                   r = Raise e /\ tr1 = tr0 ++ [EvOpen (open_args a b z)])
        \/ exists mp r' t',
             mapchete_open env (open_args a b z) = Ok mp /\
             make_job a (callback_or_empty (msg_callback a))
               (multi_or_cpu_count env (multi a)) tl z mp
               (tr0 ++ [EvOpen (open_args a b z)]) = (r', t') /\
             r = r' /\
             tr1 = match r' with
                   | Ok _ => t'
                   | Raise e => if is_Exception e then t' ++ [EvExit] else t'
                   end).
Proof.
  unfold execute. intros H.
  apply bind_inv in H as [(sel & t & Hs & H)|(e & Hs & ->)].
  2:{ left. exists e. pose proof Hs as Ht. apply select_tile_trace in Ht.
      subst tr1. auto. }
  pose proof Hs as Ht. apply select_tile_trace in Ht. subst t.
  destruct sel as [[tl b] z]. right. exists tl, b, z. split; [exact Hs|].
  apply bind_inv in H as [(mp & t & Ho & H)|(e & Ho & ->)].
  - unfold open_ in Ho.
    apply bind_inv in Ho as [(u & t1 & H1 & H2)|(e' & H1 & _)];
      [|unfold emit in H1; discriminate].
    apply lift_inv in H2 as [Hmp ->]. unfold emit in H1; inversion H1; subst t1.
    right. unfold try_except_Exception in H.
    destruct (make_job _ _ _ _ _ _ _) as [[j|e] t'] eqn:Hj.
    + inversion H; subst. exists mp, (Ok j), tr1. auto.
    + exists mp, (Raise e), t'. repeat split; auto.
      * destruct (is_Exception e).
        -- unfold mp_exit, bind, emit, raise in H. inversion H; reflexivity.
        -- inversion H; reflexivity.
      * destruct (is_Exception e).
        -- unfold mp_exit, bind, emit, raise in H. inversion H; reflexivity.
        -- inversion H; reflexivity.
  - left. unfold open_ in Ho.
    apply bind_inv in Ho as [(u & t1 & H1 & H2)|(e' & H1 & _)];
      [|unfold emit in H1; discriminate].
    apply lift_inv in H2 as [Hmp ->]. unfold emit in H1; inversion H1; subst t1.
    exists e. auto.
Qed.

(** A Job that [execute] returns, in terms of the call's arguments. *)
Lemma execute_Ok env a tr0 j tr1 :
  execute env a tr0 = (Ok j, tr1) ->
  exists tl b z mp n,
    select_tile env a tr0 = (Ok (tl, b, z), tr0) /\
    mapchete_open env (open_args a b z) = Ok mp /\
    mp_count_tiles mp = Ok n /\
    Job.func j = _msg_wrapper /\
    Job.fargs j = (callback_or_empty (msg_callback a), mp) /\
    Job.fkwargs j = mkBatchKwargs tl (multi_or_cpu_count env (multi a))
                      (if truthy_obj tl then None else z) /\
    Job.executor_concurrency j
    = concurrency_of (dask_scheduler a) n (multi_or_cpu_count env (multi a)) /\
    Job.as_iterator j = as_iterator a /\
    Job.total j = (if truthy_obj tl then 1 else n).
Proof.
  intros H. apply execute_inv in H as [(e & _ & He & _)|H]; [discriminate|].
  destruct H as (tl & b & z & Hs & [(e & _ & He & _)|H]); [discriminate|].
  destruct H as (mp & r' & t' & Hmp & Hj & <- & _).
  apply make_job_Ok in Hj as (n & Hn & Hf & Hfa & Hfk & Hc & Hai & Ht).
  exists tl, b, z, mp, n. auto 12.
Qed.

(** The tile that [execute] works with is set exactly when the caller
    gave a tile selector. *)
Lemma select_tile_truthy env a tr tl b z tr' :
  select_tile env a tr = (Ok (tl, b, z), tr') ->
  truthy_obj tl = truthy_obj (tile a).
Proof.
  intros H. destruct (tile a) as [zrc|] eqn:Ht.
  - eapply select_tile_Some in H as (rc & py & t & _ & _ & _ & -> & _); eauto.
  - eapply select_tile_None in H as [-> _]; eauto.
Qed.

(** The concurrency choice over the caller's [multi] and the CPU count. *)
Lemma concurrency_of_effective env a n :
  concurrency_of (dask_scheduler a) n (multi_or_cpu_count env (multi a))
  = if truthy_str (dask_scheduler a) then Some "dask"
    else if (n =? 1) || (effective_multi env a =? 1) then None
    else Some "processes".
Proof.
  unfold concurrency_of, multi_or_cpu_count, effective_multi, truthy_int.
  destruct (truthy_str (dask_scheduler a)); [reflexivity|].
  destruct (multi a) as [m|]; simpl.
  - destruct (m =? 0); simpl; now rewrite orb_false_r.
  - now rewrite orb_false_r.
Qed.

(** What [execute] appends to the trace: nothing when resolving the tile
    fails; otherwise the [mapchete.open] call with the arguments
    [open_args] of the resolved bounds and zoom, followed by events among
    which [mp.batch_processor] is only called with the Job's keywords,
    and [mapchete.open] not again. *)
Lemma execute_trace env a tr0 r tr1 :
  execute env a tr0 = (r, tr1) ->
  tr1 = tr0 \/
  exists tl b z rest,
    select_tile env a tr0 = (Ok (tl, b, z), tr0) /\
    tr1 = tr0 ++ EvOpen (open_args a b z) :: rest /\
    forall P : event -> bool,
      P EvCountTiles = true ->
      (forall p, P (EvProcessed p) = true) ->
      (forall msg, P (EvMsg msg) = true) ->
      P EvExit = true ->
      (forall ex, P (EvExecutorEnter ex) = true) ->
      P EvExecutorExit = true ->
      (forall ex,
         P (EvBatchProcessor ex
              (mkBatchKwargs tl (multi_or_cpu_count env (multi a))
                 (if truthy_obj tl then None else z)))
         = true) ->
      forallb P rest = true.
Proof.
  intros H. apply execute_inv in H as [(e & _ & _ & ->)|H]; [now left|].
  right. destruct H as (tl & b & z & Hs & [(e & _ & _ & ->)|H]).
  { exists tl, b, z, []. repeat split; auto. }
  destruct H as (mp & r' & t' & Hmp & Hj & <- & ->).
  apply make_job_trace in Hj as (ms & rn & -> & Hms & _ & Hrn).
  exists tl, b, z.
  exists (EvCountTiles :: ms ++ rn
          ++ match r with
             | Ok _ => []
             | Raise e => if is_Exception e then [EvExit] else []
             end).
  split; [exact Hs|]. split.
  { destruct r as [j|e]; [|destruct (is_Exception e)];
      rewrite <- ?app_assoc; simpl; rewrite <- ?app_assoc, ?app_nil_r;
      reflexivity. }
  intros P Hc Hp Hm Hx Hen Hex Hb. simpl. rewrite Hc; simpl.
  rewrite !forallb_app, (Hrn P) by assumption.
  assert (forallb P ms = true) as ->.
  { destruct Hms as [->|(msg & ->)]; simpl; [reflexivity | now rewrite Hm]. }
  destruct r as [j|e]; [reflexivity|].
  destruct (is_Exception e); simpl; [now rewrite Hx | reflexivity].
Qed.

Lemma zoom_unset_calls (s : trace) :
  forallb zoom_unset_event s = true ->
  forall kw, In kw (batch_calls s) -> kw_zoom kw = None.
Proof.
  induction s as [|ev s IH]; simpl; [intros _ ? []|].
  intros H. apply andb_prop in H as [Hev Hs].
  destruct ev; simpl; auto.
  intros kw' [<-|Hin]; [|now apply IH].
  simpl in Hev. destruct (kw_zoom kw); [discriminate | reflexivity].
Qed.

Lemma not_count_In (s : trace) :
  forallb not_count s = true -> ~ In EvCountTiles s.
Proof.
  rewrite forallb_forall. intros H Hin. apply H in Hin. discriminate.
Qed.

Lemma not_batch_calls (s : trace) :
  forallb not_batch s = true -> batch_calls s = [].
Proof.
  induction s as [|ev s IH]; simpl; [reflexivity|].
  destruct ev; simpl; intros H; try (apply IH; assumption); discriminate.
Qed.

(** Running a Job of [execute] whose total is not zero calls
    [mp.batch_processor] once, with the keywords the Job holds. *)
Lemma job_run_batch_calls (j : ExecuteJob) :
  Job.func j = _msg_wrapper ->
  Job.total j <> 0 ->
  batch_calls (snd (drain (Job.run_ j) [])) = [Job.fkwargs j].
Proof.
  intros Hf Ht. unfold Job.run_. apply Z.eqb_neq in Ht. rewrite Ht.
  cbn [drain]. rewrite drain_try_finally. cbn [snd].
  rewrite Hf. destruct (Job.fargs j) as [cb mp]. unfold _msg_wrapper.
  rewrite drain_try_finally. cbn [snd].
  unfold batch_processor. cbn [for_in drain].
  rewrite drain_frame. cbn [snd].
  rewrite !batch_calls_app. cbn [batch_calls app].
  rewrite not_batch_calls; [reflexivity|].
  apply drain_all, for_in_all.
  - unfold batch_gen. now apply batch_gen_items_all.
  - intros p k Hk. simpl. now rewrite gcall_all.
Qed.

(** What a call of [execute] that returns a Job has logged: the open,
    the count, at most one message, and the run of the Job unless it is
    an iterator. *)
Lemma execute_Ok_trace env a tr0 j tr1 :
  execute env a tr0 = (Ok j, tr1) ->
  exists tl b z ms,
    select_tile env a tr0 = (Ok (tl, b, z), tr0) /\
    (ms = [] \/ exists msg, ms = [EvMsg msg]) /\
    tr1 = tr0 ++ EvOpen (open_args a b z) :: EvCountTiles :: ms
              ++ (if as_iterator a then []
                  else snd (drain (Job.run_ j) [])).
Proof.
  intros H.
  apply execute_inv in H as [(e & _ & He & _)|H]; [discriminate|].
  destruct H as (tl & b & z & Hs & [(e & _ & He & _)|H]); [discriminate|].
  destruct H as (mp & r' & t' & Hmp & Hj & <- & ->).
  exists tl, b, z. unfold make_job, count_tiles in Hj.
  apply bind_inv in Hj as [(n & t & H1 & Hj)|(e & _ & He)]; [|discriminate].
  apply bind_inv in H1 as [(u & t1 & H1 & H2)|(e' & H1 & _)];
    [|unfold emit in H1; discriminate].
  apply lift_inv in H2 as [_ ->]. unfold emit in H1; inversion H1; subst t1.
  clear H1.
  apply bind_inv in Hj as [(u' & t2 & Hc & Hj)|(e & _ & He)]; [|discriminate].
  assert (Hm : exists ms,
             t2 = (tr0 ++ [EvOpen (open_args a b z)]) ++ EvCountTiles :: ms /\
             (ms = [] \/ exists msg, ms = [EvMsg msg])).
  { destruct (truthy_obj tl); apply call_trace in Hc as [-> | ->].
    - exists []. split; [now rewrite <- app_assoc | now left].
    - eexists [EvMsg _]. split; [now rewrite <- !app_assoc | right; eauto].
    - exists []. split; [now rewrite <- app_assoc | now left].
    - eexists [EvMsg _]. split; [now rewrite <- !app_assoc | right; eauto]. }
  destruct Hm as (ms & -> & Hms). exists ms.
  split; [exact Hs|]. split; [exact Hms|].
  pose proof Hj as Hfields.
  apply job_new_fields in Hfields as (Hf & Hfa & Hfk & Hco & Hek & Hai & Htot).
  apply job_new_trace in Hj. rewrite Hj. rewrite <- !app_assoc. cbn [app].
  do 3 f_equal. f_equal.
  destruct (as_iterator a); [reflexivity|].
  unfold Job.run_. cbn [Job.total Job.func Job.fargs Job.fkwargs
    Job.executor_concurrency Job.executor_kwargs].
  now rewrite Hf, Hfa, Hfk, Hco, Hek, Htot.
Qed.

(* ================================================================== *)
(** ** The orchestrator: concurrency mode, total, open arguments *)
(* ================================================================== *)

(** C1 (amended).  For every call of [execute] that returns a Job, the
    Job's executor concurrency is ["dask"] if [dask_scheduler] is truthy;
    otherwise [None] (sequential) if the tile count is 1 or the effective
    worker count is 1; otherwise ["processes"].  The effective worker
    count is [multi] when it is set and not zero and the machine's CPU
    count otherwise, so an unset [multi] alone does not select the
    sequential mode. *)
Theorem execute_concurrency_selection env a tr0 j tr1 :
  execute env a tr0 = (Ok j, tr1) ->
  exists tiles_count,
    mp_count_tiles (snd (Job.fargs j)) = Ok tiles_count /\
    Job.executor_concurrency j
    = if truthy_str (dask_scheduler a) then Some "dask"
      else if (tiles_count =? 1) || (effective_multi env a =? 1) then None
      else Some "processes".
Proof.
  intros H.
  apply execute_Ok in H
    as (tl & b & z & mp & n & _ & _ & Hn & _ & Hfa & _ & Hc & _).
  exists n. rewrite Hfa, Hc. split; [exact Hn|].
  apply concurrency_of_effective.
Qed.

Lemma execute_concurrency_selection_witness :
  exists j tr1,
    execute (Scenario.env_of 4 Scenario.mp_five) Scenario.lazy [] = (Ok j, tr1)
    /\ exists tiles_count,
         mp_count_tiles (snd (Job.fargs j)) = Ok tiles_count /\
         Job.executor_concurrency j
         = if truthy_str (dask_scheduler Scenario.lazy) then Some "dask"
           else if (tiles_count =? 1)
                   || (effective_multi (Scenario.env_of 4 Scenario.mp_five)
                         Scenario.lazy =? 1)
                then None
                else Some "processes".
Proof.
  eexists. eexists. split; [reflexivity|].
  eapply (@execute_concurrency_selection
            (Scenario.env_of 4 Scenario.mp_five) Scenario.lazy []).
  reflexivity.
Defined.

(** C1 (as stated) fails: with [multi] unset, five tiles, no scheduler
    and four CPUs, [execute] selects ["processes"], where the stated
    selection is sequential. *)
Lemma spec_concurrency_unset_multi_counterexample :
  exists j tr1,
    execute (Scenario.env_of 4 Scenario.mp_five) Scenario.lazy [] = (Ok j, tr1)
    /\ mp_count_tiles (snd (Job.fargs j)) = Ok 5
    /\ multi Scenario.lazy = None
    /\ truthy_str (dask_scheduler Scenario.lazy) = false
    /\ spec_concurrency 5 (multi Scenario.lazy)
         (truthy_str (dask_scheduler Scenario.lazy)) = None
    /\ Job.executor_concurrency j = Some "processes".
Proof.
  eexists. eexists. split; [reflexivity|]. repeat split.
Qed.

(** C2 (amended).  The concurrency mode is a function of the tile count,
    of [multi], of whether a scheduler is configured and, when [multi] is
    unset or zero, of the machine's CPU count: two calls of [execute] that
    agree on these select the same mode.  When [multi] is set and not zero
    the CPU count plays no role. *)
Theorem execute_concurrency_deterministic
    env1 env2 a1 a2 tr1 tr2 j1 j2 tr1' tr2' :
  execute env1 a1 tr1 = (Ok j1, tr1') ->
  execute env2 a2 tr2 = (Ok j2, tr2') ->
  mp_count_tiles (snd (Job.fargs j1)) = mp_count_tiles (snd (Job.fargs j2)) ->
  multi a1 = multi a2 ->
  truthy_str (dask_scheduler a1) = truthy_str (dask_scheduler a2) ->
  truthy_int (multi a1) = true \/ cpu_count env1 = cpu_count env2 ->
  Job.executor_concurrency j1 = Job.executor_concurrency j2.
Proof.
  intros H1 H2 Hn Hm Hd Hc.
  apply execute_Ok in H1
    as (tl1 & b1 & z1 & mp1 & n1 & _ & _ & Hn1 & _ & Hfa1 & _ & Hc1 & _).
  apply execute_Ok in H2
    as (tl2 & b2 & z2 & mp2 & n2 & _ & _ & Hn2 & _ & Hfa2 & _ & Hc2 & _).
  rewrite Hfa1, Hfa2 in Hn; simpl in Hn. rewrite Hn1, Hn2 in Hn.
  inversion Hn; subst n2.
  rewrite Hc1, Hc2. unfold concurrency_of. rewrite Hd.
  replace (multi_or_cpu_count env2 (multi a2))
    with (multi_or_cpu_count env1 (multi a1)); [reflexivity|].
  unfold multi_or_cpu_count. rewrite <- Hm.
  destruct Hc as [-> | ->]; [reflexivity|].
  reflexivity.
Qed.

Lemma execute_concurrency_deterministic_witness :
  exists j1 j2 t1 t2,
    execute (Scenario.env_of 4 Scenario.mp_five) Scenario.lazy [] = (Ok j1, t1)
    /\ execute (Scenario.env_of 4 Scenario.mp_five) Scenario.lazy [EvIndex]
       = (Ok j2, t2)
    /\ Job.executor_concurrency j1 = Job.executor_concurrency j2.
Proof.
  eexists. eexists. eexists. eexists.
  split; [reflexivity|]. split; [reflexivity|].
  eapply (@execute_concurrency_deterministic
            (Scenario.env_of 4 Scenario.mp_five)
            (Scenario.env_of 4 Scenario.mp_five)
            Scenario.lazy Scenario.lazy [] [EvIndex]);
    try reflexivity.
  right; reflexivity.
Defined.

(** C2 (as stated) fails: the same tile count, the same (unset) [multi]
    and no scheduler select the sequential mode on a machine with one CPU
    and ["processes"] on a machine with four. *)
Lemma concurrency_depends_on_cpu_count_counterexample :
  exists j1 j2 t1 t2,
    execute (Scenario.env_of 1 Scenario.mp_five) Scenario.lazy [] = (Ok j1, t1)
    /\ execute (Scenario.env_of 4 Scenario.mp_five) Scenario.lazy []
       = (Ok j2, t2)
    /\ mp_count_tiles (snd (Job.fargs j1)) = mp_count_tiles (snd (Job.fargs j2))
    /\ Job.executor_concurrency j1 = None
    /\ Job.executor_concurrency j2 = Some "processes".
Proof.
  eexists. eexists. eexists. eexists.
  split; [reflexivity|]. split; [reflexivity|]. repeat split.
Qed.

(** C8.  A Job returned by [execute] has its total fixed from the work
    set resolved beforehand: the call has opened the process with the
    resolved bounds and zoom and asked that process for its tile count,
    right after opening it and only once; the Job runs on that process
    and its total is 1 when a tile selector was supplied and that tile
    count otherwise.  For an iterator Job the call has run no executor,
    batch or task at all; otherwise they come after the count. *)
Theorem execute_total_known_up_front env a tr0 j tr1 :
  execute env a tr0 = (Ok j, tr1) ->
  exists tl b z mp tiles_count post,
    select_tile env a tr0 = (Ok (tl, b, z), tr0) /\
    mapchete_open env (open_args a b z) = Ok mp /\
    mp_count_tiles mp = Ok tiles_count /\
    snd (Job.fargs j) = mp /\
    Job.total j = (if truthy_obj (tile a) then 1 else tiles_count) /\
    Job.len j tr1 = (len_of (Job.total j), tr1) /\
    tr1 = tr0 ++ EvOpen (open_args a b z) :: EvCountTiles :: post /\
    ~ In EvCountTiles post /\
    (as_iterator a = true -> existsb is_task_event post = false).
Proof.
  intros H. pose proof H as H'.
  apply execute_Ok in H'
    as (tl & b & z & mp & n & Hs & Hmp & Hn & Hf & Hfa & Hfk & _ & _ & Ht).
  apply select_tile_truthy in Hs as Htl.
  apply execute_Ok_trace in H as (tl' & b' & z' & ms & Hs' & Hms & ->).
  rewrite Hs in Hs'. inversion Hs'; subst tl' b' z'. clear Hs'.
  exists tl, b, z, mp, n.
  exists (ms ++ (if as_iterator a then [] else snd (drain (Job.run_ j) []))).
  unfold Job.len, lift. rewrite Hfa, Ht, Htl.
  repeat split; auto.
  - apply not_count_In. rewrite forallb_app. apply andb_true_intro. split.
    + destruct Hms as [->|(msg & ->)]; reflexivity.
    + destruct (as_iterator a); [reflexivity|].
      apply drain_all, job_run_all; auto.
  - intros ->. rewrite app_nil_r.
    destruct Hms as [->|(msg & ->)]; reflexivity.
Qed.

Lemma execute_total_known_up_front_witness :
  exists j tr1,
    execute (Scenario.env_of 4 Scenario.mp_five) Scenario.defaults []
    = (Ok j, tr1)
    /\ Job.total j = 5
    /\ exists post,
         tr1 = EvOpen (open_args Scenario.defaults None None)
                 :: EvCountTiles :: post
         /\ ~ In EvCountTiles post.
Proof.
  eexists. eexists. split; [reflexivity|].
  destruct (@execute_total_known_up_front
              (Scenario.env_of 4 Scenario.mp_five) Scenario.defaults [] _ _
              eq_refl)
    as (tl & b & z & mp & n & post & Hs & Hmp & Hn & _ & Ht & _ & Htr & Hc & _).
  inversion Hs; subst tl b z. inversion Hmp; subst mp.
  inversion Hn; subst n. split; [exact Ht|].
  exists post. split; [exact Htr | exact Hc].
Defined.

(** C9.  Whatever way a call of [execute] ends, every [mapchete.open]
    call it makes gets the mode ["overwrite"] when [overwrite] is true,
    whatever [mode] is, and the caller's [mode] unchanged when [overwrite]
    is false; the call is made as soon as the tile, bounds and zoom are
    resolved. *)
Theorem execute_open_mode env a tr0 r tr1 :
  execute env a tr0 = (r, tr1) ->
  exists s, tr1 = tr0 ++ s /\
    (forall oa, In oa (opens s) ->
       o_mode oa = if overwrite a then "overwrite" else mode a) /\
    (forall sel, fst (select_tile env a tr0) = Ok sel ->
       exists oa, opens s = [oa]).
Proof.
  intros H. pose proof H as H'.
  apply execute_trace in H as [->|(tl & b & z & rest & Hs & -> & Hrest)].
  - exists []. rewrite app_nil_r. split; [reflexivity|]. split.
    + intros ? [].
    + intros sel Hsel.
      apply execute_inv in H' as [(e & Hs & _)|(tl & b & z & _ & H)].
      * rewrite Hs in Hsel; discriminate.
      * exfalso.
        destruct H as [(e & _ & _ & Ht)|(mp & r' & t' & _ & Hj & _ & Ht)].
        -- apply (f_equal (@List.length _)) in Ht.
           rewrite length_app in Ht; simpl in Ht; lia.
        -- apply make_job_trace in Hj as (ms & rn & -> & _).
           apply (f_equal (@List.length _)) in Ht.
           destruct r' as [j|e]; [|destruct (is_Exception e)];
             rewrite ?length_app in Ht; simpl in Ht; lia.
  - eexists. split; [reflexivity|].
    assert (Ho : opens rest = []).
    { apply not_open_opens, Hrest; reflexivity. }
    simpl. rewrite Ho. split.
    + intros oa [<-|[]]. reflexivity.
    + intros _ _. eauto.
Qed.

Lemma execute_open_mode_witness :
  exists r tr1,
    execute (Scenario.env_of 4 Scenario.mp_five) Scenario.single_tile []
    = (r, tr1)
    /\ exists s, tr1 = [] ++ s /\
         (forall oa, In oa (opens s) ->
            o_mode oa = if overwrite Scenario.single_tile then "overwrite"
                        else mode Scenario.single_tile) /\
         (forall sel,
            fst (select_tile (Scenario.env_of 4 Scenario.mp_five)
                   Scenario.single_tile []) = Ok sel ->
            exists oa, opens s = [oa]).
Proof.
  eexists. eexists. split; [reflexivity|].
  eapply (@execute_open_mode
            (Scenario.env_of 4 Scenario.mp_five) Scenario.single_tile []).
  reflexivity.
Defined.

(** C10.  When a tile selector is supplied, the caller's [zoom] and
    [bounds] play no role: the call behaves the same for any other values
    of them; every [mapchete.open] call gets the bounds and the zoom of
    the tile that the process pyramid returns for the selector; every
    [mp.batch_processor] call gets [zoom=None], and so do the keywords
    stored in a returned Job.  These calls are made: once the pyramid has
    returned the tile, the process is opened exactly once, with the
    bounds and the zoom of that tile; a returned Job holds that tile,
    the effective worker count and [zoom=None] as its keywords, and
    unless it is an iterator [mp.batch_processor] has been called exactly
    once, with these keywords. *)
Theorem execute_tile_overrides_zoom_bounds env a zrc tr0 r tr1 :
  tile a = Some zrc ->
  execute env a tr0 = (r, tr1) ->
  (forall z' b', execute env (set_zoom_bounds a z' b') tr0 = (r, tr1)) /\
  exists s, tr1 = tr0 ++ s /\
    (forall oa, In oa (opens s) ->
       exists rc py t,
         raw_conf env (mapchete_config a) = Ok rc /\
         raw_conf_process_pyramid env rc = Ok py /\
         pyramid_tile env py zrc = Ok t /\
         o_bounds oa = Some (tile_bounds t) /\
         o_zoom oa = Some (ZoomInt (tile_zoom t))) /\
    (forall kw, In kw (batch_calls s) -> kw_zoom kw = None) /\
    (forall j, r = Ok j -> kw_zoom (Job.fkwargs j) = None) /\
    (forall rc py t,
       raw_conf env (mapchete_config a) = Ok rc ->
       raw_conf_process_pyramid env rc = Ok py ->
       pyramid_tile env py zrc = Ok t ->
       opens s
       = [open_args a (Some (tile_bounds t)) (Some (ZoomInt (tile_zoom t)))]
       /\ forall j,
            r = Ok j ->
            Job.fkwargs j
            = mkBatchKwargs (Some t) (multi_or_cpu_count env (multi a)) None
            /\ (as_iterator a = false -> batch_calls s = [Job.fkwargs j])).
Proof.
  intros Ht H. split.
  { intros z' b'. rewrite <- H.
    unfold execute, select_tile, open_args, make_job; simpl. rewrite Ht.
    reflexivity. }
  assert (Hj : forall j, r = Ok j -> kw_zoom (Job.fkwargs j) = None).
  { intros j ->. pose proof H as H'.
    apply execute_Ok in H'
      as (tl & b & z & mp & n & Hs & _ & _ & _ & _ & -> & _).
    eapply select_tile_Some in Hs as (rc & py & t & _ & _ & _ & -> & _);
      eauto. }
  pose proof H as H0.
  apply execute_trace in H as [->|(tl & b & z & rest & Hs & -> & Hrest)].
  - exists []. rewrite app_nil_r. repeat split; auto; try (intros ? []).
    + exfalso.
      apply execute_inv in H0 as [(e & Hs & _)|(tl & b & z & _ & Hx)].
      * unfold select_tile, bind, lift, ret in Hs.
        rewrite Ht, H, H1, H2 in Hs. discriminate.
      * destruct Hx as [(e & _ & _ & Hl)|(mp & r' & t' & _ & Hmj & _ & Hl)].
        -- apply (f_equal (@List.length _)) in Hl.
           rewrite length_app in Hl; simpl in Hl; lia.
        -- apply make_job_trace in Hmj as (ms & rn & -> & _).
           apply (f_equal (@List.length _)) in Hl.
           destruct r' as [j|e]; [|destruct (is_Exception e)];
             rewrite ?length_app in Hl; simpl in Hl; lia.
    + subst r. apply execute_Ok_trace in H0 as (? & ? & ? & ? & _ & _ & Hl).
      exfalso. apply (f_equal (@List.length _)) in Hl.
      rewrite length_app in Hl; simpl in Hl; lia.
    + subst r. apply execute_Ok_trace in H0 as (? & ? & ? & ? & _ & _ & Hl).
      exfalso. apply (f_equal (@List.length _)) in Hl.
      rewrite length_app in Hl; simpl in Hl; lia.
  - eexists. split; [reflexivity|].
    pose proof Hs as Hs'.
    eapply select_tile_Some in Hs'
      as (rc & py & t & Hrc & Hpy & Hti & -> & -> & ->); eauto.
    assert (Hz : forallb zoom_unset_event rest = true).
    { apply Hrest; reflexivity. }
    assert (Ho : opens rest = []).
    { apply not_open_opens.
      rewrite forallb_forall in Hz |- *. intros ev Hin.
      specialize (Hz ev Hin). destruct ev; auto. }
    simpl. rewrite Ho. split; [|split; [|split]]; auto.
    + intros oa [<-|[]]. exists rc, py, t. auto.
    + now apply zoom_unset_calls.
    + intros rc' py' t' Hrc' Hpy' Hti'.
      rewrite Hrc in Hrc'. inversion Hrc'; subst rc'.
      rewrite Hpy in Hpy'. inversion Hpy'; subst py'.
      rewrite Hti in Hti'. inversion Hti'; subst t'.
      split; [reflexivity|]. intros j ->.
      pose proof H0 as H1.
      apply execute_Ok in H1
        as (tl & b & z & mp & n & Hs1 & _ & _ & Hf & _ & Hfk & _ & _ & Htot).
      rewrite Hs in Hs1. inversion Hs1; subst tl b z. clear Hs1.
      cbn [truthy_obj] in Hfk, Htot. split; [exact Hfk|].
      intros Hai.
      apply execute_Ok_trace in H0 as (tl & b & z & ms & Hs1 & Hms & Hl).
      rewrite Hs in Hs1. inversion Hs1; subst tl b z. clear Hs1.
      apply app_inv_head in Hl. inversion Hl as [Hrest']. rewrite Hai.
      cbn [batch_calls]. rewrite batch_calls_app.
      rewrite job_run_batch_calls by (auto; rewrite Htot; discriminate).
      destruct Hms as [->|(msg & ->)]; reflexivity.
Qed.

Lemma execute_tile_overrides_zoom_bounds_witness :
  exists r tr1,
    tile Scenario.single_tile = Some (5, 3, 2)
    /\ execute (Scenario.env_of 4 Scenario.mp_five) Scenario.single_tile []
       = (r, tr1)
    /\ (forall z' b',
          execute (Scenario.env_of 4 Scenario.mp_five)
            (set_zoom_bounds Scenario.single_tile z' b') [] = (r, tr1))
    /\ (forall j, r = Ok j -> kw_zoom (Job.fkwargs j) = None)
    /\ opens tr1
       = [open_args Scenario.single_tile (Some Scenario.unit_bounds)
            (Some (ZoomInt 5))].
Proof.
  eexists. eexists. split; [reflexivity|]. split; [reflexivity|].
  destruct (@execute_tile_overrides_zoom_bounds
              (Scenario.env_of 4 Scenario.mp_five) Scenario.single_tile
              (5, 3, 2) [] _ _ eq_refl eq_refl)
    as (Hsame & s & Hs & _ & _ & Hj & Hopen).
  split; [exact Hsame|]. split; [exact Hj|].
  destruct (Hopen [] (mkPyramid "geodetic" 1)
              (mkTile (5, 3, 2) 5 Scenario.unit_bounds)
              eq_refl eq_refl eq_refl) as [Ho _].
  simpl in Hs. rewrite <- Hs in Ho. exact Ho.
Defined.

(* ================================================================== *)
(** ** Release of the process object *)
(* ================================================================== *)

(** Once started, the loop under [try ... finally] releases the process
    object exactly once however many items the consumer takes before it
    drops the generator. *)
Lemma loop_abandon_exit_once cb msg_of items e : forall k tr,
  snd (fst (take_then_close (S k)
              (Created (wrapper_loop cb msg_of items e)) tr)) = Finished
  /\ exit_count (snd (take_then_close (S k)
                        (Created (wrapper_loop cb msg_of items e)) tr))
     = S (exit_count tr).
Proof.
  induction items as [|p rest IH]; intros k tr.
  - unfold wrapper_loop; simpl. destruct e; simpl;
      rewrite exit_count_app; simpl; split; auto; lia.
  - destruct k as [|k'].
    + unfold wrapper_loop; simpl. rewrite !exit_count_app; simpl.
      split; auto; lia.
    + destruct cb as [f|] eqn:Ecb.
      * destruct (f (msg_of p)) as [x|] eqn:Ef.
        -- unfold wrapper_loop; simpl. rewrite Ef; simpl.
           rewrite !exit_count_app; simpl. split; auto; lia.
        -- specialize (IH k' ((tr ++ [EvProcessed p]) ++ [EvMsg (msg_of p)])).
           unfold wrapper_loop in *; simpl in *. rewrite Ef; simpl.
           destruct (run _ _) as [[[a| |x] o] t]; simpl in *.
           ++ destruct (take_then_close k' o t) as [[[xs r] o'] t'];
                simpl in *. rewrite !exit_count_app in IH; simpl in IH.
              split; [tauto | lia].
           ++ rewrite !exit_count_app in IH; simpl in IH.
              split; [tauto | lia].
           ++ rewrite !exit_count_app in IH; simpl in IH.
              split; [tauto | lia].
      * specialize (IH k' (tr ++ [EvProcessed p])).
        unfold wrapper_loop in *; simpl in *.
        destruct (run _ _) as [[[a| |x] o] t]; simpl in *.
        -- destruct (take_then_close k' o t) as [[[xs r] o'] t'];
             simpl in *. rewrite !exit_count_app in IH; simpl in IH.
           split; [tauto | lia].
        -- rewrite !exit_count_app in IH; simpl in IH.
           split; [tauto | lia].
        -- rewrite !exit_count_app in IH; simpl in IH.
           split; [tauto | lia].
Qed.

(** Early abandonment: after at least one [next()], dropping the wrapper
    releases the process object exactly once. *)
Lemma msg_wrapper_abandon_exit_once cb mp ex kw k tr :
  snd (fst (take_then_close (S k) (Created (_msg_wrapper (cb, mp) ex kw)) tr))
  = Finished
  /\ exit_count
       (snd (take_then_close (S k) (Created (_msg_wrapper (cb, mp) ex kw)) tr))
     = S (exit_count tr).
Proof.
  pose proof (loop_abandon_exit_once cb tile_msg
                (batch_items (mp_batch_processor mp ex kw))
                (batch_end (mp_batch_processor mp ex kw)) k
                (tr ++ [EvBatchProcessor ex kw])) as [Ho Hc].
  rewrite exit_count_app in Hc; simpl in Hc. rewrite Nat.add_0_r in Hc.
  split; [exact Ho | exact Hc].
Qed.

(** A wrapper that was never started is dropped without releasing the
    process object. *)
Lemma msg_wrapper_unstarted_no_exit cb mp ex kw tr :
  take_then_close 0 (Created (_msg_wrapper (cb, mp) ex kw)) tr
  = ([], Ok tt, Finished, tr).
Proof. reflexivity. Qed.

Lemma to_list_trace {A} (g : Gen A) tr :
  snd (to_list g tr) = snd (drain g tr).
Proof.
  unfold to_list. destruct (drain g tr) as [[xs [e|]] s]; reflexivity.
Qed.

(** Iterating a lazy Job of [execute] to its end, be it exhaustion or a
    task's exception, releases the process object exactly once, provided
    its total is not zero. *)
Lemma execute_job_list_exit_once env a tr0 j tr1 tr :
  execute env a tr0 = (Ok j, tr1) ->
  as_iterator a = true ->
  Job.total j <> 0 ->
  exit_count (snd (Job.list_ j tr)) = S (exit_count tr).
Proof.
  intros H Hai Ht.
  apply execute_Ok in H
    as (tl & b & z & mp & n & _ & _ & _ & Hf & Hfa & _ & _ & Hai' & _).
  unfold Job.list_, Job.body, Job.run_. rewrite to_list_trace, Hai', Hai.
  apply Z.eqb_neq in Ht. rewrite Ht. simpl.
  rewrite drain_try_finally; simpl. rewrite Hf, Hfa.
  rewrite exit_count_app, msg_wrapper_drain_exit_once.
  rewrite exit_count_app; simpl. lia.
Qed.

(** A Job of [execute] whose total is zero iterates as empty without
    running the wrapper: the process object stays open. *)
Lemma execute_job_empty_not_released env a tr0 j tr1 tr :
  execute env a tr0 = (Ok j, tr1) ->
  Job.total j = 0 ->
  exit_count tr1 = exit_count tr0 /\
  (as_iterator a = true -> Job.list_ j tr = (Ok [], tr)).
Proof.
  intros H Ht. pose proof H as H'.
  apply execute_Ok in H'
    as (tl & b & z & mp & n & _ & _ & _ & Hf & Hfa & Hfk & Hc & Hai & Htot).
  split.
  - apply execute_inv in H as [(e & _ & He & _)|H]; [discriminate|].
    destruct H as (tl' & b' & z' & _ & [(e & _ & He & _)|H]); [discriminate|].
    destruct H as (mp' & r' & t' & _ & Hj & <- & ->).
    unfold make_job in Hj.
    apply bind_inv in Hj as [(n' & t & H1 & Hj)|(e & _ & He)]; [|discriminate].
    apply bind_inv in Hj as [(u & t2 & Hcall & Hj)|(e & _ & He)];
      [|discriminate].
    assert (Ht2 : exit_count t2 = exit_count tr0).
    { unfold count_tiles in H1.
      apply bind_inv in H1 as [(u' & t1 & H1 & H2)|(e' & H1 & _)];
        [|unfold emit in H1; discriminate].
      apply lift_inv in H2 as [_ ->]. unfold emit in H1; inversion H1; subst t1.
      destruct (truthy_obj tl'); apply call_trace in Hcall as [->| ->];
        rewrite ?exit_count_app; simpl; lia. }
    pose proof Hj as Hfields. apply job_new_fields in Hfields
      as (_ & _ & _ & _ & _ & _ & Htot').
    apply job_new_trace in Hj. subst t'.
    rewrite exit_count_app, Ht2.
    destruct (as_iterator a); simpl; [lia|].
    unfold Job.run_; simpl. rewrite <- Htot', Ht. simpl. lia.
  - intros Hlazy. unfold Job.list_, Job.body, Job.run_.
    rewrite Hai, Hlazy, Ht. reflexivity.
Qed.

(** A failure between opening the process object and returning a lazy
    Job releases the object exactly once if it is an [Exception], and not
    at all otherwise. *)
Lemma execute_lazy_failure_exit env a tr0 tl b z mp e tr1 :
  select_tile env a tr0 = (Ok (tl, b, z), tr0) ->
  mapchete_open env (open_args a b z) = Ok mp ->
  as_iterator a = true ->
  execute env a tr0 = (Raise e, tr1) ->
  exit_count tr1
  = (exit_count tr0 + if is_Exception e then 1 else 0)%nat.
Proof.
  intros Hs Hmp Hai H.
  apply execute_inv in H as [(e' & Hs' & _)|H].
  { rewrite Hs in Hs'; discriminate. }
  destruct H as (tl' & b' & z' & Hs' & H).
  rewrite Hs in Hs'; inversion Hs'; subst tl' b' z'.
  destruct H as [(e' & Hmp' & _)|(mp' & r' & t' & _ & Hj & <- & ->)].
  { rewrite Hmp in Hmp'; discriminate. }
  apply make_job_trace in Hj as (ms & rn & -> & Hms & Hrn & _).
  rewrite (Hrn Hai), app_nil_r.
  assert (Hm : exit_count ms = 0%nat).
  { destruct Hms as [->|(msg & ->)]; reflexivity. }
  destruct (is_Exception e);
    rewrite !exit_count_app; simpl; rewrite ?exit_count_app, Hm; simpl; lia.
Qed.

(** Running a [try ... finally] runs the body; the final event follows
    unless the body stopped at a [yield]. *)
Lemma run_try_finally {A} (g : Gen A) ev : forall tr,
  run (try_finally g (GEmit ev)) tr
  = (fst (fst (run g tr)), obj_finally ev (snd (fst (run g tr))),
     match fst (fst (run g tr)) with
     | Yielded _ => snd (run g tr)
     | _ => snd (run g tr) ++ [ev]
     end).
Proof.
  induction g as [| e | ev' k IH | a kn _ kc _]; intros tr; simpl;
    try reflexivity.
  apply IH.
Qed.

(** An enclosing [try ... finally] whose final event is not a release
    does not change how often the process object is released. *)
Lemma take_then_close_finally {A} ev (Hev : not_exit ev = true) k :
  forall (o : GenObj A) tr,
    exit_count (snd (take_then_close k (obj_finally ev o) tr))
    = exit_count (snd (take_then_close k o tr)).
Proof.
  assert (Hsnoc : forall t, exit_count (t ++ [ev]) = exit_count t).
  { intros t. rewrite exit_count_app. destruct ev; simpl; try lia.
    discriminate. }
  induction k as [|k IH]; intros o tr.
  - destruct o as [g|kn kc|]; simpl; try reflexivity.
    rewrite run_try_finally.
    destruct (run kc tr) as [[[a| |[m| |]] o'] t]; simpl;
      rewrite ?Hsnoc; reflexivity.
  - destruct o as [g|kn kc|]; simpl; try reflexivity.
    + rewrite run_try_finally.
      destruct (run g tr) as [[[a| |x] o'] t]; simpl; rewrite ?Hsnoc;
        try reflexivity.
      specialize (IH o' t).
      destruct (take_then_close k (obj_finally ev o') t) as [[[xs r] o1] t1].
      destruct (take_then_close k o' t) as [[[xs' r'] o2] t2].
      exact IH.
    + rewrite run_try_finally.
      destruct (run kn tr) as [[[a| |x] o'] t]; simpl; rewrite ?Hsnoc;
        try reflexivity.
      specialize (IH o' t).
      destruct (take_then_close k (obj_finally ev o') t) as [[[xs r] o1] t1].
      destruct (take_then_close k o' t) as [[[xs' r'] o2] t2].
      exact IH.
Qed.

(** Early abandonment of a lazy Job of [execute]: after at least one
    [next()] on [iter(job)], dropping the iterator releases the process
    object exactly once, provided the Job's total is not zero. *)
Lemma execute_job_abandon_exit_once env a tr0 j tr1 k tr :
  execute env a tr0 = (Ok j, tr1) ->
  as_iterator a = true ->
  Job.total j <> 0 ->
  exit_count (snd (take_then_close (S k) (Job.iter j) tr)) = S (exit_count tr).
Proof.
  intros H Hai Ht.
  apply execute_Ok in H
    as (tl & b & z & mp & n & _ & _ & _ & Hf & Hfa & _ & _ & Hai' & _).
  unfold Job.iter, Job.body, Job.run_. rewrite Hai', Hai.
  apply Z.eqb_neq in Ht. rewrite Ht, Hf, Hfa.
  set (ex := mkExecutor _ _).
  change (exit_count
            (snd (take_then_close (S k)
                    (obj_finally EvExecutorExit
                       (Created (_msg_wrapper
                                   (callback_or_empty (msg_callback a), mp)
                                   ex (Job.fkwargs j))))
                    (tr ++ [EvExecutorEnter ex])))
          = S (exit_count tr)).
  rewrite take_then_close_finally by reflexivity.
  destruct (msg_wrapper_abandon_exit_once
              (callback_or_empty (msg_callback a)) mp ex (Job.fkwargs j) k
              (tr ++ [EvExecutorEnter ex])) as [_ ->].
  rewrite exit_count_app; simpl. lia.
Qed.

(** A failure of [mp.count_tiles()] is followed by one release. *)
Lemma execute_count_failure_releases_once :
  execute (Scenario.env_of 4 Scenario.mp_uncountable) Scenario.lazy []
  = (Raise (Exception "cannot count"),
     [EvOpen (open_args Scenario.lazy None None); EvCountTiles; EvExit]).
Proof. reflexivity. Qed.

(** An interrupt at the same place is not: [except Exception] lets it
    pass, where the [finally] of [_msg_wrapper] would have released. *)
Lemma execute_interrupt_before_job_not_released :
  execute (Scenario.env_of 4 Scenario.mp_interrupted) Scenario.lazy []
  = (Raise KeyboardInterrupt,
     [EvOpen (open_args Scenario.lazy None None); EvCountTiles]).
Proof. reflexivity. Qed.

(** C3 (code at the failing input).  [execute("foo.mapchete")] with the
    default [as_iterator=False] consumes the Job while constructing it,
    inside the [try] block.  When the third task raises, the [finally] of
    [_msg_wrapper] releases the process object, and the [except] handler
    of [execute] releases it again on the way out: two releases, no Job. *)
Theorem execute_eager_task_failure_releases_twice :
  fst (execute (Scenario.env_of 4 Scenario.mp_failing) Scenario.defaults [])
  = Raise (Exception "task failed")
  /\ exit_count
       (snd (execute (Scenario.env_of 4 Scenario.mp_failing)
               Scenario.defaults []))
     = 2%nat.
Proof. split; reflexivity. Qed.

(** An empty work set: [execute] returns a Job of total zero, and
    iterating it never reaches the wrapper, so nothing is released. *)
Lemma execute_empty_job_releases_never :
  exists j tr1,
    execute (Scenario.env_of 4 (Scenario.mp_of 0 [] None)) Scenario.lazy []
    = (Ok j, tr1)
    /\ Job.total j = 0
    /\ exit_count (snd (Job.list_ j tr1)) = 0%nat.
Proof. eexists. eexists. split; [reflexivity|]. split; reflexivity. Qed.

(* ================================================================== *)
(** ** The [convert] command *)
(* ================================================================== *)

(** The command consumes a Job of positive length and reports. *)
Lemma convert_consumes_nonempty_job {FA FK FA' FK'}
    (commands_convert :
       string -> string -> bool -> option (string -> option exn) ->
       M (Job.t FA FK))
    (commands_index :
       string -> bool -> option string -> bool ->
       option (string -> option exn) -> M (Job.t FA' FK'))
    (elapsed : string) (a : Cli.ConvertArgs) tr0 job tr1 :
  commands_convert (Cli.tiledir a) (Cli.output a) true
    (Cli.write_if (Cli.verbose a)) tr0 = (Ok job, tr1) ->
  0 < Job.total job ->
  Cli.convert_timed commands_convert elapsed a tr0
  = match Job.list_ job tr1 with
    | (Ok _, t) =>
        (Ok Cli.FellThrough,
         t ++ [EvWrite ("processing " ++ Cli.tiledir a ++ " finished in "
                        ++ elapsed)%string])
    | (Raise e, t) => (Raise e, t)
    end.
Proof.
  intros Hc Hpos. unfold Cli.convert_timed, bind. rewrite Hc.
  unfold Job.len, lift, len_of.
  destruct (Job.total job <? 0) eqn:E1; [apply Z.ltb_lt in E1; lia|].
  destruct (Job.total job =? 0) eqn:E2; [apply Z.eqb_eq in E2; lia|].
  destruct (Job.list_ job tr1) as [[xs|e] t]; reflexivity.
Qed.

(** C4.  When the Job that [commands.convert] returns has total zero,
    the [convert] command returns right after taking its length: the
    trace is the one [commands.convert] left, so the Job has not been
    iterated, no executor has been entered, nothing has been written and
    no index has been built. *)
Theorem convert_skips_empty_job {FA FK FA' FK'}
    (commands_convert :
       string -> string -> bool -> option (string -> option exn) ->
       M (Job.t FA FK))
    (commands_index :
       string -> bool -> option string -> bool ->
       option (string -> option exn) -> M (Job.t FA' FK'))
    (elapsed : string) (a : Cli.ConvertArgs) tr0 job tr1 :
  commands_convert (Cli.tiledir a) (Cli.output a) true
    (Cli.write_if (Cli.verbose a)) tr0 = (Ok job, tr1) ->
  Job.total job = 0 ->
  Cli.convert_timed commands_convert elapsed a tr0 = (Ok Cli.Returned, tr1)
  /\ Cli.convert commands_convert commands_index elapsed a tr0 = (Ok tt, tr1).
Proof.
  intros Hc Ht.
  assert (Hb : Cli.convert_timed commands_convert elapsed a tr0
               = (Ok Cli.Returned, tr1)).
  { unfold Cli.convert_timed, bind. rewrite Hc.
    unfold Job.len, lift, len_of. rewrite Ht. reflexivity. }
  split; [exact Hb|].
  unfold Cli.convert, bind. rewrite Hb. reflexivity.
Qed.

Lemma convert_skips_empty_job_witness :
  Cli.convert (fun _ _ _ _ => ret (Scenario.job_of 0))
    (fun _ _ _ _ _ => ret (Scenario.job_of 3)) "1s" Scenario.convert_args []
  = (Ok tt, []).
Proof.
  apply (@convert_skips_empty_job _ _ _ _
           (fun _ _ _ _ => ret (Scenario.job_of 0))
           (fun _ _ _ _ _ => ret (Scenario.job_of 3)) "1s"
           Scenario.convert_args [] (Scenario.job_of 0) []);
    reflexivity.
Defined.

(* ================================================================== *)
(** ** The executor contract *)
(* ================================================================== *)

Section ExecutorFacts.
Import Executor_.
Context {A FArgs FKwargs R : Type}.
Variable fn : A -> FArgs -> FKwargs -> result R.
Variable fargs : FArgs.
Variable fkwargs : FKwargs.

(** Reading a Future gives back what its task did: the value, or the
    exception raised again. *)
Lemma result_run_task id item :
  result_ (run_task fn fargs fkwargs id item) = fn item fargs fkwargs.
Proof.
  unfold result_, Executor_.run_task.
  destruct (fn item fargs fkwargs); reflexivity.
Qed.

Lemma run_task_id id item : fut_id (run_task fn fargs fkwargs id item) = id.
Proof.
  unfold Executor_.run_task. destruct (fn item fargs fkwargs); reflexivity.
Qed.

(** A loop that never cancels sees one Future per item, numbered on from
    the Futures the executor already tracks. *)
Lemma seq_for_uncancelled items : forall ex,
  cancelled ex = false ->
  forall i,
    nth_error (fst (seq_for fn fargs fkwargs (fun _ e => e) ex items)) i
    = option_map (run_task fn fargs fkwargs (List.length (futures ex) + i))
        (nth_error items i).
Proof.
  induction items as [|item rest IH]; intros [m c tracked] Hc i;
    simpl in Hc; subst c.
  - simpl. now destruct i.
  - simpl.
    specialize (IH (mk m false
                      (tracked ++ [run_task fn fargs fkwargs
                                     (List.length tracked) item]))
                   eq_refl).
    destruct (seq_for _ _ _ _ _ rest) as [fs ex'].
    destruct i as [|i']; simpl.
    + now rewrite Nat.add_0_r.
    + specialize (IH i'). simpl in IH. rewrite IH.
      rewrite length_app; simpl.
      now replace (List.length tracked + 1 + i')%nat
        with (List.length tracked + S i')%nat by lia.
Qed.

Lemma seq_for_uncancelled_length items : forall ex,
  cancelled ex = false ->
  List.length (fst (seq_for fn fargs fkwargs (fun _ e => e) ex items))
  = List.length items.
Proof.
  induction items as [|item rest IH]; intros [m c tracked] Hc;
    simpl in Hc; subst c; simpl; [reflexivity|].
  specialize (IH (mk m false
                    (tracked ++ [run_task fn fargs fkwargs
                                   (List.length tracked) item]))
                 eq_refl).
  destruct (seq_for _ _ _ _ _ rest) as [fs ex']; simpl in *.
  now rewrite IH.
Qed.

Lemma seq_for_uncancelled_results items : forall ex,
  cancelled ex = false ->
  map (@result_ R) (fst (seq_for fn fargs fkwargs (fun _ e => e) ex items))
  = map (fun item => fn item fargs fkwargs) items.
Proof.
  induction items as [|item rest IH]; intros [m c tracked] Hc;
    simpl in Hc; subst c; simpl; [reflexivity|].
  specialize (IH (mk m false
                    (tracked ++ [run_task fn fargs fkwargs
                                   (List.length tracked) item]))
                 eq_refl).
  destruct (seq_for _ _ _ _ _ rest) as [fs ex']; simpl in *.
  now rewrite IH, result_run_task.
Qed.

(** Every Future that [as_completed] yields, in any mode and under any
    completion order, is the captured outcome of the task at its index. *)
Lemma yield_in_order_In order items f :
  In f (yield_in_order fn fargs fkwargs order items) ->
  exists item, nth_error items (fut_id f) = Some item
               /\ f = run_task fn fargs fkwargs (fut_id f) item.
Proof.
  induction order as [|i order IH]; simpl; [intros []|].
  destruct (nth_error items i) as [item|] eqn:E; [|exact IH].
  intros [<-|Hin]; [|now apply IH].
  rewrite run_task_id. eauto.
Qed.

(** In sequential mode a loop over [as_completed] that runs to the end
    sees one Future per item, in input order. *)
Lemma seq_for_preserves_order (items : list A) :
  let fs := fst (seq_for fn fargs fkwargs (fun _ e => e)
                   (new Sequential) items) in
  List.length fs = List.length items
  /\ (forall i,
        nth_error fs i
        = option_map (run_task fn fargs fkwargs i) (nth_error items i))
  /\ map (@result_ R) fs = map (fun item => fn item fargs fkwargs) items.
Proof.
  simpl. split; [|split].
  - now apply seq_for_uncancelled_length.
  - intros i. now rewrite seq_for_uncancelled.
  - now apply seq_for_uncancelled_results.
Qed.

(** C7.  A task whose callable raises has the exception captured in its
    Future as a failure, and [result()] on that Future raises it again;
    [next()] on [as_completed] never raises; a run over all items still
    yields one Future per item; and whatever the mode and the completion
    order, each yielded Future reads as the outcome of its own task. *)
Theorem task_error_captured_in_future :
  (forall id item e,
     fn item fargs fkwargs = Raise e ->
     fut_outcome (run_task fn fargs fkwargs id item) = Failed e
     /\ result_ (run_task fn fargs fkwargs id item) = Raise e)
  /\ (forall ex items e,
        fst (fst (seq_next fn fargs fkwargs ex items)) <> Raised e)
  /\ (forall items,
        List.length (fst (seq_for fn fargs fkwargs (fun _ e => e)
                            (new Sequential) items))
        = List.length items)
  /\ (forall m schedule items f,
        In f (as_completed fn fargs fkwargs m schedule items) ->
        exists item, nth_error items (fut_id f) = Some item
                     /\ result_ f = fn item fargs fkwargs).
Proof.
  split; [|split; [|split]].
  - intros id item e He. unfold result_, Executor_.run_task.
    rewrite He. split; reflexivity.
  - intros ex [|item rest] e; simpl; [discriminate|].
    destruct (cancelled ex); simpl; discriminate.
  - intros items. now apply seq_for_uncancelled_length.
  - intros m schedule items f Hin.
    apply yield_in_order_In in Hin as (item & Hnth & Hf).
    exists item. split; [exact Hnth|]. rewrite Hf. apply result_run_task.
Qed.
End ExecutorFacts.

(** C5.  In sequential mode [as_completed] preserves input order: for
    every task function and every finite list of N items, a loop that runs
    to the end sees exactly N Futures, the i-th Future being that of the
    i-th item (it carries the index i and the outcome of the task on that
    item), so that the results read off the Futures are those of the items
    in input order; for the ten tasks [i -> i + 1] over [range(10)] of
    [test_sequential_executor] the results are 1 to 10 in that order. *)
Theorem sequential_as_completed_preserves_order :
  (forall (A FArgs FKwargs R : Type)
          (fn : A -> FArgs -> FKwargs -> result R)
          (fargs : FArgs) (fkwargs : FKwargs) (items : list A),
     let fs := fst (Executor_.seq_for fn fargs fkwargs (fun _ e => e)
                      (Executor_.new Executor_.Sequential) items) in
     List.length fs = List.length items
     /\ (forall i,
           nth_error fs i
           = option_map (Executor_.run_task fn fargs fkwargs i)
               (nth_error items i))
     /\ map (@Executor_.result_ R) fs
        = map (fun item => fn item fargs fkwargs) items)
  /\ map (@Executor_.result_ Z)
       (fst (Executor_.seq_for Executor_._dummy_process tt 0 (fun _ e => e)
               (Executor_.new Executor_.Sequential) (Executor_.range 10)))
     = map Ok [1; 2; 3; 4; 5; 6; 7; 8; 9; 10].
Proof.
  split.
  - intros A FArgs FKwargs R fn fargs fkwargs items.
    apply seq_for_preserves_order.
  - reflexivity.
Qed.

(** The second loop of [test_sequential_executor]: cancelling after the
    first Future ends the iteration there, so the body is not entered
    again. *)
Lemma sequential_cancel_after_first :
  List.length
    (fst (Executor_.seq_for Executor_._dummy_process tt 0
            (fun _ e => Executor_.cancel e)
            (Executor_.new Executor_.Sequential) (Executor_.range 10)))
  = 1%nat.
Proof. reflexivity. Qed.

(** A task that raises: the loop goes on, the Future raises on reading. *)
Lemma failing_task_is_captured :
  map (@Executor_.result_ Z)
    (fst (Executor_.seq_for Executor_._dummy_process tt (-1) (fun _ e => e)
            (Executor_.new Executor_.Sequential) (Executor_.range 2)))
  = [Raise (Exception "ValueError: sleep length must be non-negative");
     Raise (Exception "ValueError: sleep length must be non-negative")].
Proof. reflexivity. Qed.

(* ================================================================== *)
(** ** What the consumer of [_msg_wrapper] sees and hears *)
(* ================================================================== *)

Lemma msgs_app (s t : trace) : msgs (s ++ t) = msgs s ++ msgs t.
Proof.
  induction s as [|ev s IH]; simpl; [reflexivity|].
  destruct ev; simpl; rewrite IH; reflexivity.
Qed.

Lemma msgs_item_events cb msg_of items :
  msgs (flat_map (item_events cb msg_of) items) = heard cb (map msg_of items).
Proof.
  induction items as [|p rest IH]; simpl.
  - now destruct cb.
  - rewrite msgs_app, IH. destruct cb; reflexivity.
Qed.

Lemma exit_count_item_events cb msg_of items :
  exit_count (flat_map (item_events cb msg_of) items) = 0%nat.
Proof.
  induction items as [|p rest IH]; simpl; [reflexivity|].
  rewrite exit_count_app, IH. destruct cb; reflexivity.
Qed.

(** With a callback that does not raise, draining the loop gives the
    items of the batch, its end, and one round of events per item. *)
Lemma wrapper_loop_drain cb msg_of items e :
  quiet cb ->
  forall tr,
    drain (wrapper_loop cb msg_of items e) tr
    = (items, e, tr ++ flat_map (item_events cb msg_of) items ++ [EvExit]).
Proof.
  intros Hq. unfold wrapper_loop.
  induction items as [|p rest IH]; intros tr; simpl.
  - destruct e; reflexivity.
  - destruct cb as [f|]; simpl in *.
    + rewrite (Hq (msg_of p)). rewrite IH.
      now rewrite <- !app_assoc.
    + rewrite IH. now rewrite <- !app_assoc.
Qed.

(** The same loop left after [S k] items, the batch having more: the
    consumer got those items, the callback heard of the first [k] only. *)
Lemma wrapper_loop_abandon cb msg_of pre p post e :
  quiet cb ->
  forall tr,
    take_then_close (S (List.length pre))
      (Created (wrapper_loop cb msg_of (pre ++ p :: post) e)) tr
    = (pre ++ [p], Ok tt, Finished,
       tr ++ flat_map (item_events cb msg_of) pre ++ [EvProcessed p; EvExit]).
Proof.
  intros Hq. unfold wrapper_loop.
  induction pre as [|q pre IH]; intros tr.
  - simpl. now rewrite <- app_assoc.
  - specialize (IH (tr ++ item_events cb msg_of q)).
    cbn [List.length app flat_map] in *.
    rewrite <- !app_assoc in *.
    destruct cb as [f|]; cbn -[take_then_close] in *.
    + cbn. rewrite (Hq (msg_of q)). cbn.
      cbn in IH. rewrite <- app_assoc. cbn [app]. rewrite IH. reflexivity.
    + cbn. cbn in IH. rewrite IH. reflexivity.
Qed.

(** A drain that ends without an exception has gone through the whole
    batch, whatever the callback. *)
Lemma wrapper_loop_drain_ok cb msg_of items e : forall tr xs tr',
  drain (wrapper_loop cb msg_of items e) tr = (xs, None, tr') ->
  xs = items /\ e = None
  /\ tr' = tr ++ flat_map (item_events cb msg_of) items ++ [EvExit].
Proof.
  unfold wrapper_loop.
  induction items as [|p rest IH]; intros tr xs tr'; simpl.
  - destruct e; simpl; intros H; inversion H; auto.
  - destruct cb as [f|]; simpl.
    + destruct (f (msg_of p)) as [x|] eqn:Ef; simpl.
      * intros H; inversion H.
      * destruct (drain _ ((tr ++ [EvProcessed p]) ++ [EvMsg (msg_of p)]))
          as [[ys y] t] eqn:E.
        intros H; inversion H; subst.
        apply IH in E as (-> & -> & ->).
        rewrite <- !app_assoc. auto.
    + destruct (drain _ (tr ++ [EvProcessed p])) as [[ys y] t] eqn:E.
      intros H; inversion H; subst.
      apply IH in E as (-> & -> & ->).
      rewrite <- !app_assoc. auto.
Qed.

(** A callback that raises on the message of an item ends the stream
    there: the item has been handed out, the rest of the batch is not
    asked for. *)
Lemma wrapper_loop_callback_raises f msg_of pre p post e x :
  Forall (fun q => f (msg_of q) = None) pre ->
  f (msg_of p) = Some x ->
  forall tr,
    drain (wrapper_loop (UserCallback f) msg_of (pre ++ p :: post) e) tr
    = (pre ++ [p], Some x,
       tr ++ flat_map (item_events (UserCallback f) msg_of) (pre ++ [p])
          ++ [EvExit]).
Proof.
  intros Hpre Hp. unfold wrapper_loop.
  induction Hpre as [|q pre Hq Hpre IH]; intros tr; simpl.
  - rewrite Hp. simpl. now rewrite <- !app_assoc.
  - rewrite Hq. rewrite IH. now rewrite <- !app_assoc.
Qed.

(** The wrapper is its loop behind the call of [mp.batch_processor]. *)
Lemma msg_wrapper_unfold cb mp ex kw :
  _msg_wrapper (cb, mp) ex kw
  = GEmit (EvBatchProcessor ex kw)
      (wrapper_loop cb tile_msg (batch_items (mp_batch_processor mp ex kw))
         (batch_end (mp_batch_processor mp ex kw))).
Proof. reflexivity. Qed.

(** X1.  With a callback that does not raise, iterating [_msg_wrapper] to
    its end hands out exactly the items of [mp.batch_processor], in
    order, and ends as the batch ends (normally or with its exception);
    the callback hears one "Tile ..." message per item, in order; and
    [mp.__exit__] is called once. *)
Theorem msg_wrapper_transparent cb mp ex kw tr :
  quiet cb ->
  exists s,
    drain (_msg_wrapper (cb, mp) ex kw) tr
    = (batch_items (mp_batch_processor mp ex kw),
       batch_end (mp_batch_processor mp ex kw), tr ++ s)
    /\ msgs s
       = heard cb (map tile_msg (batch_items (mp_batch_processor mp ex kw)))
    /\ exit_count s = 1%nat.
Proof.
  intros Hq. rewrite msg_wrapper_unfold. simpl.
  rewrite wrapper_loop_drain by assumption.
  eexists. split.
  - rewrite <- app_assoc. reflexivity.
  - simpl. rewrite msgs_app, exit_count_app, msgs_item_events,
      exit_count_item_events. simpl. now rewrite app_nil_r.
Qed.

Lemma msg_wrapper_transparent_witness :
  exists s,
    drain (_msg_wrapper (UserCallback (fun _ => None), Scenario.mp_failing)
             (mkExecutor None (mkExecutorKwargs None None None))
             (mkBatchKwargs None None None)) []
    = ([Scenario.info 1; Scenario.info 2], Some (Exception "task failed"),
       [] ++ s)
    /\ msgs s = ["Tile (5, 1, 2): processed, written";
                 "Tile (5, 2, 2): processed, written"]
    /\ exit_count s = 1%nat.
Proof.
  apply (@msg_wrapper_transparent (UserCallback (fun _ => None))
           Scenario.mp_failing
           (mkExecutor None (mkExecutorKwargs None None None))
           (mkBatchKwargs None None None) []).
  intros s; reflexivity.
Defined.

(** X2.  A consumer that takes some items and then drops the generator
    while the batch has more: it has got those items, [mp.__exit__] is
    called once, and the callback has heard of all of them but the last,
    whose message is only sent when the consumer comes back for the next
    item. *)
Theorem msg_wrapper_abandon_messages cb mp ex kw pre p post tr :
  quiet cb ->
  batch_items (mp_batch_processor mp ex kw) = pre ++ p :: post ->
  exists s,
    take_then_close (S (List.length pre))
      (Created (_msg_wrapper (cb, mp) ex kw)) tr
    = (pre ++ [p], Ok tt, Finished, tr ++ s)
    /\ msgs s = heard cb (map tile_msg pre)
    /\ exit_count s = 1%nat.
Proof.
  intros Hq Hitems. rewrite msg_wrapper_unfold, Hitems.
  pose proof (@wrapper_loop_abandon cb tile_msg pre p post
                (batch_end (mp_batch_processor mp ex kw)) Hq
                (tr ++ [EvBatchProcessor ex kw])) as H.
  cbn [take_then_close next run] in *. rewrite H.
  eexists. split.
  - rewrite <- app_assoc. reflexivity.
  - simpl. rewrite msgs_app, exit_count_app, msgs_item_events,
      exit_count_item_events. simpl. now rewrite app_nil_r.
Qed.

Lemma msg_wrapper_abandon_messages_witness :
  exists s,
    take_then_close 2
      (Created (_msg_wrapper (UserCallback (fun _ => None), Scenario.mp_five)
                  (mkExecutor None (mkExecutorKwargs None None None))
                  (mkBatchKwargs None None None))) []
    = ([Scenario.info 1; Scenario.info 2], Ok tt, Finished, [] ++ s)
    /\ msgs s = ["Tile (5, 1, 2): processed, written"]
    /\ exit_count s = 1%nat.
Proof.
  apply (@msg_wrapper_abandon_messages (UserCallback (fun _ => None))
           Scenario.mp_five
           (mkExecutor None (mkExecutorKwargs None None None))
           (mkBatchKwargs None None None)
           [Scenario.info 1] (Scenario.info 2) [] []).
  - intros s; reflexivity.
  - reflexivity.
Defined.

(** X3.  When the callback raises on the message of an item, the stream
    ends with that exception right after the item was handed out: the
    consumer has the items up to it, the rest of the batch is never asked
    for, and [mp.__exit__] is still called once. *)
Theorem msg_wrapper_callback_raises f mp ex kw pre p post x tr :
  batch_items (mp_batch_processor mp ex kw) = pre ++ p :: post ->
  Forall (fun q => f (tile_msg q) = None) pre ->
  f (tile_msg p) = Some x ->
  exists s,
    drain (_msg_wrapper (UserCallback f, mp) ex kw) tr
    = (pre ++ [p], Some x, tr ++ s)
    /\ processed s = pre ++ [p]
    /\ exit_count s = 1%nat.
Proof.
  intros Hitems Hpre Hp. rewrite msg_wrapper_unfold, Hitems. simpl.
  rewrite wrapper_loop_callback_raises with (x := x) by assumption.
  eexists. split.
  - rewrite <- app_assoc. reflexivity.
  - simpl. split.
    + clear. induction pre as [|q pre IH]; simpl; [reflexivity|].
      now rewrite IH.
    + rewrite exit_count_app, exit_count_item_events. reflexivity.
Qed.

Lemma msg_wrapper_callback_raises_witness :
  exists s,
    drain (_msg_wrapper
             (UserCallback
                (fun m => if String.eqb m "Tile (5, 2, 2): processed, written"
                          then Some (Exception "callback failed") else None),
              Scenario.mp_of 3 [Scenario.info 1; Scenario.info 2;
                                Scenario.info 3] None)
             (mkExecutor None (mkExecutorKwargs None None None))
             (mkBatchKwargs None None None)) []
    = ([Scenario.info 1; Scenario.info 2],
       Some (Exception "callback failed"), [] ++ s)
    /\ processed s = [Scenario.info 1; Scenario.info 2]
    /\ exit_count s = 1%nat.
Proof.
  apply (@msg_wrapper_callback_raises _
           (Scenario.mp_of 3 [Scenario.info 1; Scenario.info 2;
                              Scenario.info 3] None)
           (mkExecutor None (mkExecutorKwargs None None None))
           (mkBatchKwargs None None None)
           [Scenario.info 1] (Scenario.info 2) [Scenario.info 3]
           (Exception "callback failed") []).
  - reflexivity.
  - repeat constructor.
  - reflexivity.
Defined.

(* ================================================================== *)
(** ** More on [execute] *)
(* ================================================================== *)

Lemma multi_or_cpu_count_effective env a :
  multi_or_cpu_count env (multi a) = Some (effective_multi env a).
Proof.
  unfold multi_or_cpu_count, effective_multi, truthy_int.
  destruct (multi a) as [m|]; simpl; [|reflexivity].
  now destruct (m =? 0).
Qed.

(** Without a tile selector, the bounds are those that
    [bounds_from_opts] resolves. *)
Lemma select_tile_None_bounds env a tr tl b z tr' :
  tile a = None ->
  select_tile env a tr = (Ok (tl, b, z), tr') ->
  exists rc,
    raw_conf env (mapchete_config a) = Ok rc /\
    bounds_from_opts env (point a) (point_crs a) (bounds a) (bounds_crs a) rc
    = Ok b.
Proof.
  intros Ht. unfold select_tile, bind, lift, ret. rewrite Ht.
  destruct (raw_conf env (mapchete_config a)) as [rc|] eqn:E1; [|discriminate].
  destruct (bounds_from_opts _ _ _ _ _ _) as [b'|] eqn:E2; [|discriminate].
  intros H; inversion H; subst. eauto.
Qed.

(** A call that returns a Job has opened the process once, at the start
    of what it logs. *)
Lemma execute_Ok_opens env a tr0 j tr1 :
  execute env a tr0 = (Ok j, tr1) ->
  exists tl b z rest,
    select_tile env a tr0 = (Ok (tl, b, z), tr0)
    /\ tr1 = tr0 ++ EvOpen (open_args a b z) :: rest
    /\ opens rest = [].
Proof.
  intros H. apply execute_inv in H as [(e & _ & He & _)|H]; [discriminate|].
  destruct H as (tl & b & z & Hs & [(e & _ & He & _)|H]); [discriminate|].
  destruct H as (mp & r' & t' & _ & Hj & <- & ->).
  apply make_job_trace in Hj as (ms & rn & -> & Hms & _ & Hrn).
  exists tl, b, z, (EvCountTiles :: ms ++ rn).
  split; [exact Hs|]. split; [now rewrite <- app_assoc|].
  simpl. rewrite opens_app.
  rewrite (not_open_opens rn) by (apply Hrn; reflexivity).
  destruct Hms as [->|(msg & ->)]; reflexivity.
Qed.

(** X4.  Without a tile selector, a call of [execute] that returns a Job
    has opened the process exactly once, with the caller's [zoom] and the
    bounds that [bounds_from_opts] resolved from [point], [point_crs],
    [bounds] and [bounds_crs]; the Job's keywords for
    [mp.batch_processor] carry no tile, the caller's [zoom] unchanged and
    the effective worker count; and its total is the tile count. *)
Theorem execute_without_tile env a tr0 j tr1 :
  tile a = None ->
  execute env a tr0 = (Ok j, tr1) ->
  exists rc b tiles_count s,
    raw_conf env (mapchete_config a) = Ok rc
    /\ bounds_from_opts env (point a) (point_crs a) (bounds a) (bounds_crs a)
         rc = Ok b
    /\ tr1 = tr0 ++ s
    /\ opens s = [open_args a b (zoom a)]
    /\ mp_count_tiles (snd (Job.fargs j)) = Ok tiles_count
    /\ Job.fkwargs j
       = mkBatchKwargs None (Some (effective_multi env a)) (zoom a)
    /\ Job.total j = tiles_count.
Proof.
  intros Ht H. pose proof H as H'.
  apply execute_Ok in H'
    as (tl & b & z & mp & n & Hs & _ & Hn & _ & Hfa & Hfk & _ & _ & Htot).
  apply execute_Ok_opens in H as (tl' & b' & z' & rest & Hs' & -> & Ho).
  rewrite Hs in Hs'; inversion Hs'; subst tl' b' z'.
  pose proof Hs as Hb.
  eapply select_tile_None_bounds in Hb as (rc & Hrc & Hb); [|exact Ht].
  eapply select_tile_None in Hs as [-> ->]; [|exact Ht].
  exists rc, b, n. eexists. repeat split; eauto.
  - simpl. now rewrite Ho.
  - now rewrite Hfa.
  - rewrite Hfk, multi_or_cpu_count_effective. reflexivity.
Qed.

Lemma execute_without_tile_witness :
  exists j tr1,
    execute (Scenario.env_of 4 Scenario.mp_five) Scenario.lazy [] = (Ok j, tr1)
    /\ Job.fkwargs j = mkBatchKwargs None (Some 4) None
    /\ Job.total j = 5.
Proof.
  eexists. eexists. split; [reflexivity|].
  destruct (@execute_without_tile (Scenario.env_of 4 Scenario.mp_five)
              Scenario.lazy [] _ _ eq_refl eq_refl)
    as (rc & b & n & s & _ & _ & _ & _ & Hn & Hk & Ht).
  split; [exact Hk|]. rewrite Ht. simpl in Hn. now inversion Hn.
Defined.

(** X5.  [execute] releases only what it has opened: when resolving the
    tile or the bounds fails, or [mapchete.open] itself raises, the call
    raises that exception without ever calling [mp.count_tiles] or
    [mp.__exit__], and the message callback is not called. *)
Theorem execute_fails_before_open env a tr0 r tr1 :
  execute env a tr0 = (r, tr1) ->
  (forall tl b z mp,
     select_tile env a tr0 = (Ok (tl, b, z), tr0) ->
     mapchete_open env (open_args a b z) <> Ok mp) ->
  exists e s,
    r = Raise e /\ tr1 = tr0 ++ s
    /\ exit_count s = 0%nat /\ msgs s = []
    /\ ~ In EvCountTiles s
    /\ (fst (select_tile env a tr0) = Raise e \/
        exists sel, fst (select_tile env a tr0) = Ok sel
                    /\ mapchete_open env
                         (open_args a (snd (fst sel)) (snd sel)) = Raise e).
Proof.
  intros H Hno.
  apply execute_inv in H as [(e & Hs & -> & ->)|H].
  { exists e, []. rewrite app_nil_r, Hs. simpl. repeat split; auto. }
  destruct H as (tl & b & z & Hs & [(e & Ho & -> & ->)|H]).
  { exists e, [EvOpen (open_args a b z)]. rewrite Hs. simpl.
    repeat split; auto.
    - intros [Hc|[]]; discriminate.
    - right. exists (tl, b, z). auto. }
  destruct H as (mp & r' & t' & Hmp & _). exfalso. eapply Hno; eauto.
Qed.

Lemma execute_fails_before_open_witness :
  exists e s,
    execute
      (mkEnv 4 (fun _ => Raise (Exception "no such file"))
         (fun _ => Ok (mkPyramid "geodetic" 1))
         (fun _ zrc => Ok (mkTile zrc 5 Scenario.unit_bounds))
         (fun _ _ b _ _ => Ok b) (fun _ => Ok Scenario.mp_five))
      Scenario.lazy [EvIndex] = (Raise e, [EvIndex] ++ s)
    /\ exit_count s = 0%nat /\ msgs s = [].
Proof.
  destruct (@execute_fails_before_open
              (mkEnv 4 (fun _ => Raise (Exception "no such file"))
                 (fun _ => Ok (mkPyramid "geodetic" 1))
                 (fun _ zrc => Ok (mkTile zrc 5 Scenario.unit_bounds))
                 (fun _ _ b _ _ => Ok b) (fun _ => Ok Scenario.mp_five))
              Scenario.lazy [EvIndex] _ _ eq_refl)
    as (e & s & He & Hs & Hx & Hm & _).
  - intros tl b z mp Hs. discriminate Hs.
  - exists e, s. rewrite <- He, <- Hs. auto.
Defined.

(** A callback that returns has logged its message, if it is the
    caller's. *)
Lemma call_Ok cb s tr u tr' :
  call cb s tr = (Ok u, tr') -> tr' = tr ++ map EvMsg (heard cb [s]).
Proof.
  destruct cb as [f|]; simpl; unfold bind, emit, ret, raise.
  - destruct (f s); intros H; inversion H; reflexivity.
  - intros H; inversion H. now rewrite app_nil_r.
Qed.

Lemma job_new_lazy {FA FK} (f : FA -> Executor -> FK -> Gen ProcessInfo)
    fa fk c ek n tr j tr' :
  Job.new f fa fk c ek true n tr = (Ok j, tr') ->
  tr' = tr /\ Job.results j = [].
Proof. unfold Job.new, ret. intros H; inversion H; auto. Qed.

Lemma job_new_eager {FA FK} (f : FA -> Executor -> FK -> Gen ProcessInfo)
    fa fk c ek n tr j tr' :
  Job.new f fa fk c ek false n tr = (Ok j, tr') ->
  drain (Job.run_ (Job.mk f fa fk c ek false n [])) tr
  = (Job.results j, None, tr').
Proof.
  unfold Job.new, bind, to_list, ret.
  destruct (drain _ tr) as [[xs [e|]] s]; simpl; intros H; inversion H.
  reflexivity.
Qed.

Lemma msgs_map_EvMsg ms : msgs (map EvMsg ms) = ms.
Proof. induction ms as [|m ms IH]; simpl; [reflexivity | now rewrite IH]. Qed.

(** X6.  What the caller of [execute] hears and gets when a Job is
    returned.  The callback has heard one header first, "processing 1
    tile" with a tile selector (whatever the tile count is) and
    "processing N tile(s) on M worker(s)" otherwise, M being the effective
    worker count; for an iterator Job nothing else has happened; a Job
    consumed on construction holds exactly the items of
    [mp.batch_processor], in order, the callback has heard one "Tile ..."
    message per item, and no task or callback has raised.  A Job of total
    zero holds nothing. *)
Theorem execute_messages_and_results env a tr0 j tr1 :
  execute env a tr0 = (Ok j, tr1) ->
  exists tiles_count s,
    mp_count_tiles (snd (Job.fargs j)) = Ok tiles_count
    /\ tr1 = tr0 ++ s
    /\ let cb := callback_or_empty (msg_callback a) in
       let header :=
         if truthy_obj (tile a) then "processing 1 tile"
         else count_msg tiles_count (Some (effective_multi env a)) in
       let batch :=
         mp_batch_processor (snd (Job.fargs j))
           (mkExecutor (Job.executor_concurrency j) (Job.executor_kwargs j))
           (Job.fkwargs j) in
       let items :=
         if as_iterator a || (Job.total j =? 0) then []
         else batch_items batch in
       msgs s = heard cb (header :: map tile_msg items)
       /\ Job.results j = items
       /\ (as_iterator a = false -> Job.total j <> 0 -> batch_end batch = None).
Proof.
  intros H.
  apply execute_inv in H as [(e & _ & He & _)|H]; [discriminate|].
  destruct H as (tl & b & z & Hs & [(e & _ & He & _)|H]); [discriminate|].
  destruct H as (mp & r' & t' & Hmp & Hj & <- & ->).
  apply select_tile_truthy in Hs as Htl.
  unfold make_job in Hj.
  apply bind_inv in Hj as [(n & t1 & Hc & Hj)|(e & _ & He)]; [|discriminate].
  unfold count_tiles in Hc.
  apply bind_inv in Hc as [(u & t0 & H1 & H2)|(e' & H1 & _)];
    [|unfold emit in H1; discriminate].
  apply lift_inv in H2 as [Hn ->]. unfold emit in H1; inversion H1; subst t0.
  clear H1.
  apply bind_inv in Hj as [(u' & t2 & Hcall & Hj)|(e & _ & He)];
    [|discriminate].
  rewrite multi_or_cpu_count_effective in *.
  set (header := if truthy_obj (tile a) then "processing 1 tile"
                 else count_msg n (Some (effective_multi env a))).
  assert (Ht2 : t2 = (tr0 ++ [EvOpen (open_args a b z)]) ++ [EvCountTiles]
                     ++ map EvMsg (heard (callback_or_empty (msg_callback a))
                                     [header])).
  { subst header. rewrite <- Htl.
    destruct (truthy_obj tl); apply call_Ok in Hcall; rewrite Hcall;
      now rewrite <- !app_assoc. }
  clear Hcall.
  pose proof Hj as Hfields.
  apply job_new_fields in Hfields as (Hf & Hfa & Hfk & Hco & Hek & Hai & Htot).
  exists n. rewrite Hfa, Hco, Hek, Hfk. simpl.
  destruct (as_iterator a) eqn:Eai; simpl.
  - apply job_new_lazy in Hj as [-> Hres]. subst t2.
    eexists. split; [symmetry; exact Hn|]. split.
    { rewrite <- !app_assoc. reflexivity. }
    fold header. simpl. rewrite msgs_map_EvMsg.
    rewrite Hres. repeat split; auto. discriminate.
  - apply job_new_eager in Hj. unfold Job.run_ in Hj.
    cbn [Job.total Job.func Job.fargs Job.fkwargs Job.executor_concurrency
         Job.executor_kwargs] in Hj.
    fold header. rewrite Htot.
    destruct ((if truthy_obj tl then 1 else n) =? 0) eqn:E0.
    + simpl in Hj. inversion Hj; subst.
      eexists. split; [symmetry; exact Hn|]. split.
      { rewrite <- !app_assoc. reflexivity. }
      simpl. rewrite ?msgs_app, msgs_map_EvMsg. simpl. rewrite ?app_nil_r.
      repeat split; auto. intros _ Hne. now apply Z.eqb_eq in E0.
    + cbn [drain] in Hj. rewrite drain_try_finally in Hj.
      rewrite msg_wrapper_unfold in Hj. cbn [drain] in Hj.
      destruct (drain (wrapper_loop _ _ _ _) _) as [[xs e] t3] eqn:Ed.
      cbn [fst snd] in Hj. inversion Hj as [[Hxs' He' Ht']]. subst e. clear Hj.
      apply wrapper_loop_drain_ok in Ed as (Hxs & Hend & ->).
      subst xs t2.
      eexists. split; [symmetry; exact Hn|]. split.
      { rewrite <- !app_assoc. reflexivity. }
      simpl. rewrite !msgs_app, msgs_map_EvMsg. simpl.
      rewrite msgs_app, msgs_item_events. simpl. rewrite app_nil_r.
      repeat split; auto.
      destruct (callback_or_empty (msg_callback a)); reflexivity.
Qed.

Lemma execute_messages_and_results_witness :
  exists j tr1,
    execute (Scenario.env_of 4 Scenario.mp_five)
      (mkExecuteArgs (ConfigPath "foo.mapchete") None None None None None
         None None None false "continue" None None None None
         (Some (fun _ => None)) false) [] = (Ok j, tr1)
    /\ msgs tr1 = ["processing 5 tile(s) on 4 worker(s)";
                   "Tile (5, 1, 2): processed, written";
                   "Tile (5, 2, 2): processed, written"]
    /\ Job.results j = [Scenario.info 1; Scenario.info 2].
Proof.
  eexists. eexists. split; [reflexivity|].
  destruct (@execute_messages_and_results
              (Scenario.env_of 4 Scenario.mp_five)
              (mkExecuteArgs (ConfigPath "foo.mapchete") None None None None
                 None None None None false "continue" None None None None
                 (Some (fun _ => None)) false) [] _ _ eq_refl)
    as (n & s & _ & _ & _ & Hr & _).
  split; [reflexivity | exact Hr].
Defined.

(* ================================================================== *)
(** ** More on the [convert] command *)
(* ================================================================== *)

(** X7.  For a Job of positive length: when consuming it raises, the
    [convert] command raises the same exception having written nothing
    and built no index; when it succeeds and [vrt] is off, the command
    ends with the one "finished" line and [commands.index] is not
    called. *)
Theorem convert_after_consuming {FA FK FA' FK'}
    (commands_convert :
       string -> string -> bool -> option (string -> option exn) ->
       M (Job.t FA FK))
    (commands_index :
       string -> bool -> option string -> bool ->
       option (string -> option exn) -> M (Job.t FA' FK'))
    (elapsed : string) (a : Cli.ConvertArgs) tr0 job tr1 :
  commands_convert (Cli.tiledir a) (Cli.output a) true
    (Cli.write_if (Cli.verbose a)) tr0 = (Ok job, tr1) ->
  0 < Job.total job ->
  (forall e t,
     Job.list_ job tr1 = (Raise e, t) ->
     Cli.convert commands_convert commands_index elapsed a tr0 = (Raise e, t))
  /\ (forall xs t,
        Job.list_ job tr1 = (Ok xs, t) ->
        Cli.vrt a = false ->
        Cli.convert commands_convert commands_index elapsed a tr0
        = (Ok tt,
           t ++ [EvWrite ("processing " ++ Cli.tiledir a ++ " finished in "
                          ++ elapsed)%string])).
Proof.
  intros Hc Hpos.
  pose proof (@convert_consumes_nonempty_job _ _ _ _ commands_convert
                commands_index elapsed a _ _ _ Hc Hpos) as Ht.
  split.
  - intros e t Hl. rewrite Hl in Ht.
    unfold Cli.convert, bind. now rewrite Ht.
  - intros xs t Hl Hv. rewrite Hl in Ht.
    unfold Cli.convert, bind. rewrite Ht, Hv. reflexivity.
Qed.

Lemma convert_after_consuming_witness :
  Cli.convert (fun _ _ _ _ => ret (Scenario.job_of 5))
    (fun _ _ _ _ _ => ret (Scenario.job_of 3)) "1s"
    (Cli.mkConvertArgs "in_dir" "out_dir" false None false false false None)
    []
  = (Ok tt,
     snd (Job.list_ (Scenario.job_of 5) [])
     ++ [EvWrite "processing in_dir finished in 1s"]).
Proof.
  destruct (@convert_after_consuming _ _ _ _
              (fun _ _ _ _ => ret (Scenario.job_of 5))
              (fun _ _ _ _ _ => ret (Scenario.job_of 3)) "1s"
              (Cli.mkConvertArgs "in_dir" "out_dir" false None false false
                 false None)
              [] (Scenario.job_of 5) [] eq_refl eq_refl) as [_ H].
  exact (H _ _ eq_refl eq_refl).
Defined.


(* ================================================================== *)
(** ** [str.split] and [_validate_bidx] *)
(* ================================================================== *)

Lemma split_cons sep c s :
  split sep (String c s)
  = if Ascii.eqb c sep then EmptyString :: split sep s
    else match split sep s with
         | h :: t => String c h :: t
         | [] => []
         end.
Proof.
  unfold split. simpl. destruct (split_first sep s) as [h t].
  now destruct (Ascii.eqb c sep).
Qed.

Lemma split_not_nil sep s : split sep s <> [].
Proof. unfold split. destruct (split_first sep s). discriminate. Qed.

(** Joining the fields with the separator gives the string back. *)
Lemma join_split sep s : join sep (split sep s) = s.
Proof.
  induction s as [|c s IH]; [reflexivity|].
  rewrite split_cons. destruct (Ascii.eqb c sep) eqn:E.
  - apply Ascii.eqb_eq in E. subst c.
    destruct (split sep s) as [|h t] eqn:Es; [now apply split_not_nil in Es|].
    change (join sep (EmptyString :: h :: t))
      with (String sep (join sep (h :: t))).
    now rewrite IH.
  - destruct (split sep s) as [|h t] eqn:Es; [now apply split_not_nil in Es|].
    destruct t as [|h' t']; simpl in *; now rewrite IH.
Qed.

(** There is one field more than there are separators. *)
Lemma length_split sep s :
  List.length (split sep s) = S (count_char sep s).
Proof.
  induction s as [|c s IH]; [reflexivity|].
  rewrite split_cons. simpl. destruct (Ascii.eqb c sep); simpl.
  - now rewrite IH.
  - destruct (split sep s) as [|h t] eqn:Es; [now apply split_not_nil in Es|].
    exact IH.
Qed.

(** A separator at the end leaves an empty last field, one at the start
    an empty first field. *)
Lemma split_trailing sep s :
  split sep (s ++ String sep EmptyString) = split sep s ++ [EmptyString].
Proof.
  induction s as [|c s IH].
  - simpl. rewrite split_cons, Ascii.eqb_refl. reflexivity.
  - change ((String c s ++ String sep "")%string)
      with (String c (s ++ String sep "")%string).
    rewrite !split_cons, IH. destruct (Ascii.eqb c sep); [reflexivity|].
    destruct (split sep s) as [|h t] eqn:Es; [now apply split_not_nil in Es|].
    reflexivity.
Qed.

Lemma split_leading sep s :
  split sep (String sep s) = EmptyString :: split sep s.
Proof. now rewrite split_cons, Ascii.eqb_refl. Qed.

Section BidxFacts.
Variable int_ : string -> option Z.

Lemma map_int_Some fields zs :
  Bidx.map_int int_ fields = Some zs
  <-> Forall2 (fun f z => int_ f = Some z) fields zs.
Proof.
  revert zs. induction fields as [|f rest IH]; intros zs; simpl.
  - split.
    + intros H; inversion H; constructor.
    + intros H; inversion H; reflexivity.
  - split.
    + destruct (int_ f) as [z|] eqn:Ef; [|discriminate].
      destruct (Bidx.map_int int_ rest) as [zs'|] eqn:Er; [|discriminate].
      intros H; inversion H; subst. constructor; [exact Ef|].
      now apply IH.
    + intros H; inversion H as [|? z ? zs' Hf Hr]; subst.
      rewrite Hf. apply IH in Hr. now rewrite Hr.
Qed.

Lemma map_int_None fields :
  Bidx.map_int int_ fields = None
  <-> exists f, In f fields /\ int_ f = None.
Proof.
  induction fields as [|f rest IH]; simpl.
  - split; [discriminate | intros (f & [] & _)].
  - destruct (int_ f) as [z|] eqn:Ef.
    + destruct (Bidx.map_int int_ rest) as [zs'|] eqn:Er.
      * split; [discriminate|].
        intros (g & [<-|Hin] & Hg); [congruence|].
        destruct IH as [_ IH]. discriminate IH. eauto.
      * split; [|reflexivity]. intros _.
        destruct IH as [IH _]. destruct (IH eq_refl) as (g & Hin & Hg). eauto.
    + split; [|reflexivity]. intros _. exists f. auto.
Qed.

(** X8.  [_validate_bidx] returns a list exactly when [bidx] is a
    non-empty string all of whose comma-separated fields [int] accepts;
    the list then holds the value of each field, in order, one per field
    (one more than there are commas).  No field is checked for being
    positive. *)
Theorem validate_bidx_accepts bidx zs :
  Bidx._validate_bidx int_ bidx = Ret (Some zs)
  <-> exists s,
        bidx = Some s /\ s <> EmptyString
        /\ Forall2 (fun f z => int_ f = Some z) (split ","%char s) zs
        /\ List.length zs = S (count_char ","%char s).
Proof.
  unfold Bidx._validate_bidx. split.
  - destruct bidx as [s|]; [|discriminate].
    destruct s as [|c s]; [discriminate|]. simpl truthy_str. cbv iota.
    destruct (Bidx.map_int int_ _) as [zs'|] eqn:E; [|discriminate].
    intros H; inversion H; subst zs'.
    apply map_int_Some in E.
    exists (String c s). repeat split; auto; [discriminate|].
    rewrite <- (Forall2_length E). apply length_split.
  - intros (s & -> & Hne & Hf & _).
    destruct s as [|c s]; [congruence|]. simpl truthy_str. cbv iota.
    apply map_int_Some in Hf. now rewrite Hf.
Qed.

(** When [_validate_bidx] raises, and what. *)
Lemma validate_bidx_Err bidx e :
  Bidx._validate_bidx int_ bidx = Err e
  <-> e = BadParameter "band indexes must be positive integer values"
      /\ exists s f, bidx = Some s /\ s <> EmptyString
                     /\ In f (split ","%char s) /\ int_ f = None.
Proof.
  unfold Bidx._validate_bidx. split.
  - destruct bidx as [s|]; [|discriminate].
    destruct s as [|c s]; [discriminate|]. simpl truthy_str. cbv iota.
    destruct (Bidx.map_int int_ _) as [zs'|] eqn:E; [discriminate|].
    intros H; inversion H. split; [reflexivity|].
    apply map_int_None in E as (f & Hin & Hf).
    exists (String c s), f. repeat split; auto. discriminate.
  - intros (-> & s & f & -> & Hne & Hin & Hf).
    destruct s as [|c s]; [congruence|]. simpl truthy_str. cbv iota.
    assert (E : Bidx.map_int int_ (split ","%char (String c s)) = None).
    { apply map_int_None. eauto. }
    now rewrite E.
Qed.

(** X9.  The only exception [_validate_bidx] raises is
    [click.BadParameter], and it raises it exactly when [bidx] is a
    non-empty string with a comma-separated field that [int] rejects; for
    [None] and for the empty string, and only for them, it returns
    [None]. *)
Theorem validate_bidx_rejects bidx :
  (forall e,
     Bidx._validate_bidx int_ bidx = Err e
     <-> e = BadParameter "band indexes must be positive integer values"
         /\ exists s f, bidx = Some s /\ s <> EmptyString
                        /\ In f (split ","%char s) /\ int_ f = None)
  /\ (Bidx._validate_bidx int_ bidx = Ret None <-> truthy_str bidx = false).
Proof.
  split; [intros e; apply validate_bidx_Err|].
  unfold Bidx._validate_bidx.
  destruct bidx as [s|]; [|split; reflexivity].
  destruct s as [|c s]; [split; reflexivity|]. simpl truthy_str. cbv iota.
  destruct (Bidx.map_int int_ _); split; discriminate.
Qed.

(** X10.  As [int] rejects the empty string, a comma at the end or at
    the start of [bidx] makes [_validate_bidx] raise
    [click.BadParameter]. *)
Theorem validate_bidx_stray_comma (s : string) :
  int_ EmptyString = None ->
  Bidx._validate_bidx int_ (Some (s ++ ",")%string)
  = Err (BadParameter "band indexes must be positive integer values")
  /\ Bidx._validate_bidx int_ (Some ("," ++ s)%string)
     = Err (BadParameter "band indexes must be positive integer values").
Proof.
  intros Hempty. split.
  - apply validate_bidx_Err. split; [reflexivity|].
    exists (s ++ ",")%string, EmptyString. repeat split; auto.
    + destruct s; discriminate.
    + change ","%string with (String ","%char EmptyString).
      rewrite split_trailing. apply in_or_app. right. now left.
  - apply validate_bidx_Err. split; [reflexivity|].
    exists ("," ++ s)%string, EmptyString. repeat split; auto.
    + discriminate.
    + change (("," ++ s)%string) with (String ","%char s).
      rewrite split_leading. now left.
Qed.
End BidxFacts.


(* ================================================================== *)
(** ** [clean_geometry_type] *)
(* ================================================================== *)

Section CleanGeometry.
Import IoFuncs.
Variable construct : MultiClass -> list (option Geometry) -> res Geometry.

(** Induction over a geometry and the members of its members. *)
Lemma Geometry_nested_ind (P : Geometry -> Prop) :
  (forall t v w members, Forall P members -> P (mkGeometry t v w members)) ->
  forall g, P g.
Proof.
  intros H. fix IH 1. intros [t v w members]. apply H.
  induction members as [|m members IHm]; constructor; [apply IH | exact IHm].
Qed.

Lemma MultiClass_eqb_eq a b : MultiClass_eqb a b = true <-> a = b.
Proof. destruct a, b; simpl; split; congruence. Qed.

(** The multipart classes are filed under their own names. *)
Lemma family_class_name m : family (class_name m) = Some m.
Proof. now destruct m. Qed.

(** A type that is filed is not the collection type. *)
Lemma family_not_collection t m :
  family t = Some m -> String.eqb t "GeometryCollection" = false.
Proof.
  destruct (String.eqb t "GeometryCollection") eqn:E; [|reflexivity].
  apply String.eqb_eq in E. subst t. discriminate.
Qed.

(** [clean_geometry_type] in one step, the members of a collection being
    cleaned one after the other. *)
Lemma clean_geometry_type_eq g t allow :
  clean_geometry_type construct g t allow
  = match family t with
    | None =>
        Err (ValueError ("target type is not supported: " ++ t)%string)
    | Some multipart_geom =>
        let* _ := assert_ (is_valid g) in
        if String.eqb (geom_type g) t then Ret (Some g)
        else if String.eqb (geom_type g) "GeometryCollection" then
          let* subgeoms :=
            res_map (fun s => clean_geometry_type construct s t allow)
              (geoms g) in
          let* out_geom := construct multipart_geom subgeoms in
          Ret (Some out_geom)
        else if allow && isinstance g multipart_geom then Ret (Some g)
        else
          match family (geom_type g) with
          | None => Err (KeyError (geom_type g))
          | Some m =>
              if MultiClass_eqb m multipart_geom then Ret (Some g)
              else Ret None
          end
    end.
Proof.
  destruct g as [gt v w members]. unfold family.
  cbn -[dict_get String.eqb multipart_geoms].
  destruct (dict_get multipart_geoms t) as [m|]; [|reflexivity].
  destruct v; [|reflexivity]. cbn -[dict_get String.eqb multipart_geoms].
  destruct (String.eqb gt t); [reflexivity|].
  destruct (String.eqb gt "GeometryCollection"); [|reflexivity].
  f_equal. induction members as [|s members IH]; [reflexivity|].
  cbn -[dict_get String.eqb multipart_geoms clean_geometry_type].
  now rewrite IH.
Qed.

(** X11.  [clean_geometry_type] checks the target type first: a target
    type that is not one of the six keys raises [ValueError] for every
    geometry, valid or not; with a supported target type, an invalid
    geometry fails the assertion. *)
Theorem clean_geometry_type_errors g t allow :
  (family t = None ->
   clean_geometry_type construct g t allow
   = Err (ValueError ("target type is not supported: " ++ t)%string))
  /\ (family t <> None -> is_valid g = false ->
      clean_geometry_type construct g t allow = Err AssertionError).
Proof.
  rewrite clean_geometry_type_eq. split.
  - intros ->. reflexivity.
  - intros Hf ->. destruct (family t); [reflexivity | now contradiction Hf].
Qed.

(** X12.  [allow_multipart] has no effect: for every geometry and every
    target type the result is the same with the flag on and off.  A
    multipart geometry that the flag is meant to let through passes the
    comparison of families that follows it anyway. *)
Theorem clean_geometry_type_flag_inert g t :
  clean_geometry_type construct g t true
  = clean_geometry_type construct g t false.
Proof.
  induction g as [gt v w members IH] using Geometry_nested_ind.
  rewrite !clean_geometry_type_eq.
  destruct (family t) as [m|] eqn:Et; [|reflexivity].
  cbn [is_valid geom_type geoms].
  destruct v; [|reflexivity]. cbn [assert_ rbind].
  destruct (String.eqb gt t); [reflexivity|].
  destruct (String.eqb gt "GeometryCollection").
  - f_equal. induction IH as [|s members Hs _ IHm]; [reflexivity|].
    cbn [res_map]. now rewrite Hs, IHm.
  - unfold isinstance. cbn [geom_type andb].
    destruct (String.eqb gt (class_name m)) eqn:E; [|reflexivity].
    apply String.eqb_eq in E. subst gt. rewrite family_class_name.
    assert (MultiClass_eqb m m = true) as -> by now apply MultiClass_eqb_eq.
    reflexivity.
Qed.

(** A valid geometry of one of the six types is returned as it is or
    turned into [None], by family. *)
Lemma clean_non_collection g t allow m1 m2 :
  is_valid g = true ->
  family (geom_type g) = Some m1 ->
  family t = Some m2 ->
  clean_geometry_type construct g t allow
  = Ret (if MultiClass_eqb m1 m2 then Some g else None).
Proof.
  intros Hv Hg Ht. rewrite clean_geometry_type_eq, Ht, Hv.
  cbn [assert_ rbind].
  destruct (String.eqb (geom_type g) t) eqn:E.
  { apply String.eqb_eq in E. rewrite E, Ht in Hg. inversion Hg.
    assert (MultiClass_eqb m1 m1 = true) as -> by now apply MultiClass_eqb_eq.
    reflexivity. }
  rewrite (family_not_collection _ Hg).
  destruct (allow && isinstance g m2) eqn:Ea.
  { apply andb_prop in Ea as [_ Ei]. unfold isinstance in Ei.
    apply String.eqb_eq in Ei. rewrite Ei, family_class_name in Hg.
    inversion Hg.
    assert (MultiClass_eqb m1 m1 = true) as -> by now apply MultiClass_eqb_eq.
    reflexivity. }
  rewrite Hg. now destruct (MultiClass_eqb m1 m2).
Qed.

(** X13.  For a valid geometry that is not a collection and whose type is
    one of the six keys, [clean_geometry_type] returns the geometry
    itself when its type and the target type are of the same family
    (Point, LineString or Polygon, single or multipart) and [None]
    otherwise: a single geometry passes for a multipart target and a
    multipart geometry for a single target. *)
Theorem clean_geometry_type_family g t allow m1 m2 :
  is_valid g = true ->
  family (geom_type g) = Some m1 ->
  family t = Some m2 ->
  clean_geometry_type construct g t allow
  = Ret (if MultiClass_eqb m1 m2 then Some g else None).
Proof. intros Hv Hg Ht. now apply clean_non_collection. Qed.

(** X14.  A valid geometry of a type that is neither a key nor the
    collection type (a LinearRing) makes the last lookup fail: with a
    supported target type the call raises [KeyError] with the geometry
    type, it does not return [None]. *)
Theorem clean_geometry_type_unknown_type g t allow m :
  is_valid g = true ->
  family t = Some m ->
  family (geom_type g) = None ->
  geom_type g <> "GeometryCollection" ->
  clean_geometry_type construct g t allow = Err (KeyError (geom_type g)).
Proof.
  intros Hv Ht Hg Hc. rewrite clean_geometry_type_eq, Ht, Hv.
  cbn [assert_ rbind].
  destruct (String.eqb (geom_type g) t) eqn:E.
  { apply String.eqb_eq in E. congruence. }
  destruct (String.eqb (geom_type g) "GeometryCollection") eqn:E2.
  { apply String.eqb_eq in E2. contradiction. }
  destruct (allow && isinstance g m) eqn:Ea.
  { apply andb_prop in Ea as [_ Ei]. unfold isinstance in Ei.
    apply String.eqb_eq in Ei. rewrite Ei, family_class_name in Hg.
    discriminate. }
  rewrite Hg. reflexivity.
Qed.

(** X15.  The members of a collection are not filtered: for a valid
    GeometryCollection whose members are valid geometries of the six
    types, the multipart constructor of the target's family is called
    with one entry per member, in order, the member itself when it is of
    that family and [None] when it is not; the call returns what the
    constructor returns and raises what it raises. *)
Theorem clean_geometry_type_collection w members t allow m :
  family t = Some m ->
  Forall (fun s => is_valid s = true /\ family (geom_type s) <> None) members ->
  clean_geometry_type construct
    (mkGeometry "GeometryCollection" true w members) t allow
  = let* out_geom :=
      construct m
        (map (fun s =>
                match family (geom_type s) with
                | Some m' => if MultiClass_eqb m' m then Some s else None
                | None => None
                end) members) in
    Ret (Some out_geom).
Proof.
  intros Ht Hm. rewrite clean_geometry_type_eq, Ht.
  cbn [is_valid geom_type geoms assert_ rbind].
  destruct (String.eqb "GeometryCollection" t) eqn:E.
  { apply String.eqb_eq in E. subst t. discriminate. }
  rewrite String.eqb_refl.
  assert (Heach :
            res_map (fun s => clean_geometry_type construct s t allow) members
            = Ret (map (fun s =>
                          match family (geom_type s) with
                          | Some m' =>
                              if MultiClass_eqb m' m then Some s else None
                          | None => None
                          end) members)).
  { induction Hm as [|s members [Hv Hf] _ IH]; [reflexivity|].
    cbn [res_map map].
    destruct (family (geom_type s)) as [m'|] eqn:Es; [|contradiction].
    rewrite (@clean_non_collection s t allow m' m Hv Es Ht), IH.
    reflexivity. }
  rewrite Heach. reflexivity.
Qed.
End CleanGeometry.

Lemma validate_bidx_stray_comma_witness :
  Bidx._validate_bidx IoScenario.int_decimal (Some "1,2,")
  = Err (BadParameter "band indexes must be positive integer values")
  /\ Bidx._validate_bidx IoScenario.int_decimal (Some ",1,2")
     = Err (BadParameter "band indexes must be positive integer values").
Proof.
  exact (@validate_bidx_stray_comma IoScenario.int_decimal "1,2" eq_refl).
Defined.

Lemma clean_geometry_type_family_witness :
  IoFuncs.clean_geometry_type IoScenario.construct_ok IoScenario.polygon
    "MultiPolygon" false
  = Ret (Some IoScenario.polygon)
  /\ IoFuncs.clean_geometry_type IoScenario.construct_ok IoScenario.polygon
       "Point" true
     = Ret None.
Proof.
  split.
  - exact (@clean_geometry_type_family IoScenario.construct_ok
             IoScenario.polygon "MultiPolygon" false IoFuncs.MultiPolygon
             IoFuncs.MultiPolygon eq_refl eq_refl eq_refl).
  - exact (@clean_geometry_type_family IoScenario.construct_ok
             IoScenario.polygon "Point" true IoFuncs.MultiPolygon
             IoFuncs.MultiPoint eq_refl eq_refl eq_refl).
Defined.

Lemma clean_geometry_type_unknown_type_witness :
  IoFuncs.clean_geometry_type IoScenario.construct_ok IoScenario.ring
    "LineString" true
  = Err (KeyError "LinearRing").
Proof.
  apply (@clean_geometry_type_unknown_type IoScenario.construct_ok
           IoScenario.ring "LineString" true IoFuncs.MultiLineString);
    try reflexivity.
  discriminate.
Defined.

Lemma clean_geometry_type_collection_witness :
  IoFuncs.clean_geometry_type
    (fun m subs =>
       if forallb (fun s => match s with Some _ => true | None => false end)
            subs
       then IoScenario.construct_ok m subs
       else Err (Foreign true "cannot build a multipart from None"))
    (IoFuncs.mkGeometry "GeometryCollection" true "GEOMETRYCOLLECTION (...)"
       [IoScenario.polygon; IoScenario.point])
    "Polygon" true
  = Err (Foreign true "cannot build a multipart from None").
Proof.
  rewrite clean_geometry_type_collection with (m := IoFuncs.MultiPolygon).
  - reflexivity.
  - reflexivity.
  - repeat constructor; discriminate.
Defined.


(* ================================================================== *)
(** ** [reproject_geometry], [file_bbox], [get_best_zoom_level] *)
(* ================================================================== *)

Lemma rbind_Ret {A B} (c : res A) (k : A -> res B) b :
  rbind c k = Ret b -> exists a, c = Ret a /\ k a = Ret b.
Proof. destruct c as [a|e]; simpl; [eauto | discriminate]. Qed.

Lemma assert_Ret b u : assert_ b = Ret u -> b = true.
Proof. destruct b; [reflexivity | discriminate]. Qed.

Section IoFacts.
Import IoFuncs.
Variable F : Type.
Variable ops : FloatOps F.
Variable lib : Lib F.

(** X16.  [reproject_geometry] returns a geometry exactly when both CRS
    are truthy, the input is valid, and the OGR transformation between
    the two CRS strings returns a valid geometry, which is then the
    result: it never returns an invalid geometry. *)
Theorem reproject_geometry_returns g src dst g' :
  reproject_geometry lib g src dst = Ret g'
  <-> truthy_str src = true /\ truthy_str dst = true /\ is_valid g = true
      /\ ogr_transform lib (to_string src) (to_string dst) g = Ret g'
      /\ is_valid g' = true.
Proof.
  unfold reproject_geometry. split.
  - intros H.
    apply rbind_Ret in H as (u1 & H1 & H). apply assert_Ret in H1.
    apply rbind_Ret in H as (u2 & H2 & H). apply assert_Ret in H2.
    apply rbind_Ret in H as (u3 & H3 & H). apply assert_Ret in H3.
    apply rbind_Ret in H as (out & Ho & H).
    destruct (is_valid out) eqn:Ev; [|discriminate].
    inversion H; subst. auto.
  - intros (-> & -> & -> & -> & Hv). simpl. now rewrite Hv.
Qed.

(** What [reproject_geometry] raises: a failed assertion, [ValueError]
    for an invalid result, or what the transformation raised. *)
Lemma reproject_geometry_raises g src dst e :
  reproject_geometry lib g src dst = Err e ->
  e = AssertionError
  \/ e = ValueError "reprojected geometry is not valid"
  \/ ogr_transform lib (to_string src) (to_string dst) g = Err e.
Proof.
  unfold reproject_geometry.
  destruct (truthy_str src); simpl; [|intros H; inversion H; auto].
  destruct (truthy_str dst); simpl; [|intros H; inversion H; auto].
  destruct (is_valid g); simpl; [|intros H; inversion H; auto].
  destruct (ogr_transform lib _ _ g) as [out|e']; simpl.
  - destruct (is_valid out); intros H; inversion H; auto.
  - intros H; inversion H; auto.
Qed.

(** The validation at the end of [file_bbox] lets only valid geometries
    through. *)
Lemma validated_valid g g' : validated lib g = Ret g' -> is_valid g' = true.
Proof.
  unfold validated. destruct (is_valid g) eqn:Ev.
  - intros H; inversion H; subst; exact Ev.
  - destruct (buffer0 lib g) as [c|e]; simpl.
    + destruct (is_valid c) eqn:Ec; simpl.
      * intros H; inversion H; subst; exact Ec.
      * discriminate.
    + destruct (derives_Exception e); discriminate.
Qed.

(** X17.  [file_bbox] never returns an invalid geometry. *)
Theorem file_bbox_valid input_file tile_pyramid g :
  file_bbox ops lib input_file tile_pyramid = Ret g -> is_valid g = true.
Proof.
  unfold file_bbox. intros H.
  apply rbind_Ret in H as ([inp_crs bounds] & _ & H).
  apply rbind_Ret in H as (out_bbox & _ & H).
  now apply validated_valid in H.
Qed.

(** The dataset [file_bbox] reads the CRS and the bounds from: fiona for
    a ["shp"] or ["geojson"] extension, rasterio otherwise. *)
Lemma file_bbox_source input_file tile_pyramid :
  file_bbox ops lib input_file tile_pyramid
  = let is_vector_file :=
      str_in (file_ext lib input_file) ["shp"; "geojson"] in
    let* '(inp_crs, bounds) :=
      (if is_vector_file then fiona_open lib input_file
       else
         let* inp := rasterio_open lib input_file in
         Ret (r_crs inp, r_bounds inp)) in
    let* out_bbox :=
      (if negb (crs_eq lib inp_crs (tp_crs tile_pyramid)) then
         let* bbox :=
           (if negb is_vector_file then
              let* segmentize :=
                _get_segmentize_value ops lib input_file tile_pyramid in
              ogr_segmentize lib (box lib bounds) segmentize
            else Ret (box lib bounds)) in
         reproject_geometry lib bbox inp_crs (tp_crs tile_pyramid)
       else Ret (box lib bounds)) in
    validated lib out_bbox.
Proof. reflexivity. Qed.

(** X18.  When the CRS of the file equals that of the pyramid, [file_bbox]
    does not reproject: for a vector file as for a raster, the result is
    the box of the file's bounds if that is valid; if not, it is
    [buffer(0)] of the box if that is valid, and [TypeError] when
    [buffer(0)] raises an [Exception] or gives an invalid geometry. *)
Theorem file_bbox_same_crs input_file tile_pyramid crs bounds :
  (if str_in (file_ext lib input_file) ["shp"; "geojson"]
   then fiona_open lib input_file = Ret (crs, bounds)
   else exists inp, rasterio_open lib input_file = Ret inp
                    /\ r_crs inp = crs /\ r_bounds inp = bounds) ->
  crs_eq lib crs (tp_crs tile_pyramid) = true ->
  file_bbox ops lib input_file tile_pyramid
  = if is_valid (box lib bounds) then Ret (box lib bounds)
    else
      match buffer0 lib (box lib bounds) with
      | Ret cleaned =>
          if is_valid cleaned then Ret cleaned
          else Err (TypeError "invalid file bbox geometry: ")
      | Err e =>
          if derives_Exception e
          then Err (TypeError ("invalid file bbox geometry: " ++ Exc.str e))
          else Err e
      end.
Proof.
  intros Hsrc Hcrs. rewrite file_bbox_source. cbv zeta.
  assert (Hopen :
            (if str_in (file_ext lib input_file) ["shp"; "geojson"]
             then fiona_open lib input_file
             else let* inp := rasterio_open lib input_file in
                  Ret (r_crs inp, r_bounds inp))
            = Ret (crs, bounds)).
  { destruct (str_in _ _); [exact Hsrc|].
    destruct Hsrc as (inp & -> & <- & <-). reflexivity. }
  rewrite Hopen. cbn [rbind]. rewrite Hcrs. cbn [negb rbind].
  unfold validated. destruct (is_valid (box lib bounds)); [reflexivity|].
  destruct (buffer0 lib (box lib bounds)) as [c|e]; cbn [rbind]; [|reflexivity].
  destruct (is_valid c); reflexivity.
Qed.
End IoFacts.

(** X19.  A vector file is neither opened with rasterio nor segmentized:
    for an extension ["shp"] or ["geojson"], the result of [file_bbox]
    is the same whatever [rasterio.open] and the OGR segmentation would
    do, and whatever the float operations are. *)
Theorem file_bbox_vector_no_raster {F : Type}
    (ops ops' : IoFuncs.FloatOps F) fe fo ro ro' bx bo b0 seg seg' tr ceq np
    input_file tile_pyramid :
  str_in (fe input_file) ["shp"; "geojson"] = true ->
  IoFuncs.file_bbox ops
    (@IoFuncs.mkLib F fe fo ro bx bo b0 seg tr ceq np) input_file tile_pyramid
  = IoFuncs.file_bbox ops'
      (@IoFuncs.mkLib F fe fo ro' bx bo b0 seg' tr ceq np)
      input_file tile_pyramid.
Proof.
  intros Hv. rewrite !file_bbox_source. cbn [IoFuncs.file_ext IoFuncs.fiona_open
    IoFuncs.box IoFuncs.crs_eq]. cbv zeta. rewrite Hv. reflexivity.
Qed.

Lemma file_bbox_valid_witness :
  IoFuncs.is_valid IoScenario.bbox_geom = true.
Proof.
  exact (@file_bbox_valid Q IoScenario.q_ops IoScenario.lib "dem.tif"
           IoScenario.geodetic IoScenario.bbox_geom eq_refl).
Defined.

Lemma file_bbox_same_crs_witness :
  IoFuncs.file_bbox IoScenario.q_ops IoScenario.lib "areas.shp"
    IoScenario.geodetic
  = Ret IoScenario.bbox_geom.
Proof.
  exact (@file_bbox_same_crs Q IoScenario.q_ops IoScenario.lib "areas.shp"
           IoScenario.geodetic IoScenario.wgs84 (0, 0, 10, 10)%Q
           eq_refl eq_refl).
Defined.

Lemma file_bbox_vector_no_raster_witness :
  IoFuncs.file_bbox IoScenario.q_ops IoScenario.lib "areas.shp"
    IoScenario.geodetic
  = IoFuncs.file_bbox IoScenario.q_ops
      (IoFuncs.mkLib (IoFuncs.file_ext IoScenario.lib)
         (IoFuncs.fiona_open IoScenario.lib)
         (fun _ => Err (Foreign true "not a raster"))
         (IoFuncs.box IoScenario.lib) (IoFuncs.bounds_of IoScenario.lib)
         (IoFuncs.buffer0 IoScenario.lib)
         (fun _ _ => Err (Foreign true "no OGR"))
         (IoFuncs.ogr_transform IoScenario.lib) (IoFuncs.crs_eq IoScenario.lib)
         (IoFuncs.new_pyramid IoScenario.lib))
      "areas.shp" IoScenario.geodetic.
Proof.
  apply (@file_bbox_vector_no_raster Q IoScenario.q_ops IoScenario.q_ops).
  reflexivity.
Defined.

Section ZoomFacts.
Import IoFuncs.
Variable F : Type.
Variable ops : FloatOps F.
Variable lib : Lib F.

(** The loop returns the zoom before the first one, from [lo] on, whose
    pixel size does not exceed the resolution. *)
Lemma first_fitting_spec tp avg n : forall lo z,
  first_fitting ops tp avg (map Z.of_nat (seq lo n)) = Ret z ->
  Z.of_nat lo - 1 <= z < Z.of_nat (lo + n) - 1
  /\ fle ops (pixel_x_size tp (z + 1)) avg = true
  /\ forall k, Z.of_nat lo <= k <= z ->
               fle ops (pixel_x_size tp k) avg = false.
Proof.
  induction n as [|n IH]; intros lo z; simpl; [discriminate|].
  destruct (fle ops (pixel_x_size tp (Z.of_nat lo)) avg) eqn:E.
  - intros H; inversion H; subst z. split; [lia|]. split.
    + now replace (Z.of_nat lo - 1 + 1) with (Z.of_nat lo) by lia.
    + intros k Hk. lia.
  - intros H. apply IH in H as (Hr & Hfit & Hbelow).
    split; [lia|]. split; [exact Hfit|].
    intros k Hk. destruct (Z.eq_dec k (Z.of_nat lo)) as [->|Hne]; [exact E|].
    apply Hbelow. lia.
Qed.

Lemma first_fitting_none tp avg n : forall lo,
  first_fitting ops tp avg (map Z.of_nat (seq lo n))
  = Err (ValueError "no fitting zoom level found")
  <-> forall k, Z.of_nat lo <= k < Z.of_nat (lo + n) ->
                fle ops (pixel_x_size tp k) avg = false.
Proof.
  induction n as [|n IH]; intros lo; simpl.
  - split; [intros _ k Hk; lia | reflexivity].
  - destruct (fle ops (pixel_x_size tp (Z.of_nat lo)) avg) eqn:E.
    + split; [discriminate|]. intros H.
      rewrite H in E by lia. discriminate.
    + rewrite IH. split.
      * intros H k Hk.
        destruct (Z.eq_dec k (Z.of_nat lo)) as [->|Hne]; [exact E|].
        apply H. lia.
      * intros H k Hk. apply H. lia.
Qed.

(** X20.  A zoom level that [get_best_zoom_level] returns lies between
    -1 and 23; the pixel size of the next zoom level is at most the
    average resolution of the raster, and the pixel size of every zoom
    level from 0 up to the returned one is above it.  The result -1
    stands for a raster coarser than zoom level 0. *)
Theorem get_best_zoom_level_returns input_file tile_pyramid_type z :
  get_best_zoom_level ops lib input_file tile_pyramid_type = Ret z ->
  exists tp bbox src avg,
    new_pyramid lib tile_pyramid_type = Ret tp
    /\ file_bbox ops lib input_file tp = Ret bbox
    /\ rasterio_open lib input_file = Ret src
    /\ avg_resolution_of ops (bounds_of lib bbox) (r_width src) (r_height src)
       = Ret avg
    /\ -1 <= z <= 23
    /\ fle ops (pixel_x_size tp (z + 1)) avg = true
    /\ forall k, 0 <= k <= z -> fle ops (pixel_x_size tp k) avg = false.
Proof.
  unfold get_best_zoom_level. intros H.
  apply rbind_Ret in H as (tp & Htp & H).
  apply rbind_Ret in H as (bbox & Hb & H).
  apply rbind_Ret in H as (src & Hs & H).
  apply rbind_Ret in H as (avg & Ha & H).
  apply (first_fitting_spec tp avg 25 0) in H as (Hr & Hfit & Hbelow).
  exists tp, bbox, src, avg. repeat split; auto; simpl in Hr; lia.
Qed.

(** X21.  Once the pyramid, the bounding box, the raster and its average
    resolution are there, [get_best_zoom_level] raises [ValueError] ("no
    fitting zoom level found") exactly when the pixel size is above the
    resolution at all the zoom levels 0 to 24. *)
Theorem get_best_zoom_level_no_fit input_file tile_pyramid_type tp bbox src
    avg :
  new_pyramid lib tile_pyramid_type = Ret tp ->
  file_bbox ops lib input_file tp = Ret bbox ->
  rasterio_open lib input_file = Ret src ->
  avg_resolution_of ops (bounds_of lib bbox) (r_width src) (r_height src)
  = Ret avg ->
  (get_best_zoom_level ops lib input_file tile_pyramid_type
   = Err (ValueError "no fitting zoom level found")
   <-> forall k, 0 <= k < 25 -> fle ops (pixel_x_size tp k) avg = false).
Proof.
  intros Htp Hb Hs Ha. unfold get_best_zoom_level.
  rewrite Htp. cbn [rbind]. rewrite Hb. cbn [rbind]. rewrite Hs. cbn [rbind].
  rewrite Ha. cbn [rbind]. unfold range0.
  rewrite (first_fitting_none tp avg 25 0). reflexivity.
Qed.
End ZoomFacts.

Lemma get_best_zoom_level_returns_witness :
  IoFuncs.get_best_zoom_level IoScenario.q_ops IoScenario.lib "dem.tif"
    "geodetic" = Ret 2
  /\ -1 <= 2 <= 23.
Proof.
  split; [reflexivity|].
  destruct (@get_best_zoom_level_returns Q IoScenario.q_ops IoScenario.lib
              "dem.tif" "geodetic" 2 eq_refl)
    as (tp & bbox & src & avg & _ & _ & _ & _ & Hr & _).
  exact Hr.
Defined.

Lemma get_best_zoom_level_no_fit_witness :
  IoFuncs.get_best_zoom_level IoScenario.q_ops IoScenario.lib "dem.tif"
    "geodetic" = Err (ValueError "no fitting zoom level found")
  <-> forall k, 0 <= k < 25 ->
        IoFuncs.fle IoScenario.q_ops
          (IoFuncs.pixel_x_size IoScenario.geodetic k)
          (40000000 # 400000000)%Q = false.
Proof.
  exact (@get_best_zoom_level_no_fit Q IoScenario.q_ops IoScenario.lib
           "dem.tif" "geodetic" IoScenario.geodetic IoScenario.bbox_geom
           IoScenario.raster (40000000 # 400000000)%Q
           eq_refl eq_refl eq_refl eq_refl).
Defined.

(* ================================================================== *)
(** ** [_read_metadata] *)
(* ================================================================== *)

Lemma dict_get_set_same {V} (d : dict V) k v :
  dict_get (dict_set d k v) k = Some v.
Proof.
  induction d as [|[k' v'] d IH]; simpl.
  - now rewrite String.eqb_refl.
  - destruct (String.eqb k' k) eqn:E; simpl; rewrite E; [reflexivity|exact IH].
Qed.

Lemma dict_get_set_other {V} (d : dict V) k v k' :
  k' <> k -> dict_get (dict_set d k v) k' = dict_get d k'.
Proof.
  intros Hne. induction d as [|[k0 v0] d IH]; simpl.
  - destruct (String.eqb k k') eqn:E; [|reflexivity].
    apply String.eqb_eq in E. congruence.
  - destruct (String.eqb k0 k) eqn:E; simpl.
    + apply String.eqb_eq in E. subst k0.
      destruct (String.eqb k k') eqn:E'; [|reflexivity].
      apply String.eqb_eq in E'. congruence.
    + now rewrite IH.
Qed.

Section MetadataFacts.
Import IoFuncs.
Variable F : Type.
Variable ops : FloatOps F.
Variable lib : Lib F.

(** X22.  [_read_metadata] needs one of the three tile types: for any
    other value, the default [None] included, it raises [AttributeError]
    ("tile_type required"), and it does so before opening any file. *)
Theorem read_metadata_requires_tile_type self tile_type :
  match tile_type with
  | Some t =>
      str_in t ["RasterProcessTile"; "NumpyTile"; "RasterFileTile"] = false
  | None => True
  end ->
  _read_metadata ops lib self tile_type
  = Err (AttributeError "tile_type required").
Proof.
  unfold _read_metadata, str_in. destruct tile_type as [t|]; [|reflexivity].
  cbn [existsb]. intros H.
  apply orb_false_elim in H as [H1 H].
  apply orb_false_elim in H as [H2 H].
  apply orb_false_elim in H as [H3 _].
  rewrite H1, H2, H3. reflexivity.
Qed.

(** X23.  The dictionary [_read_metadata] returns is the output profile
    of the process (for a RasterProcessTile or a NumpyTile) or the
    metadata of the input file (for a RasterFileTile) with four entries
    set: [width] and [height] from the second and the first component of
    the tile's shape, [transform] to [(left, px, 0.0, top, 0.0, -px)]
    with the left and top bounds of the tile and the pixel size at its
    zoom, and [affine] from the tile; every other key is as it was. *)
Theorem read_metadata_returns self tile_type out :
  _read_metadata ops lib self tile_type = Ret out ->
  exists base,
    ((exists t, tile_type = Some t
                /\ str_in t ["RasterProcessTile"; "NumpyTile"] = true
                /\ base = output_profile self)
     \/ (tile_type = Some "RasterFileTile"
         /\ exists src, rasterio_open lib (input_file self) = Ret src
                        /\ base = r_meta src))
    /\ dict_get out "width"
       = Some (MInt (snd (t_shape (tile self) (pixelbuffer self))))
    /\ dict_get out "height"
       = Some (MInt (fst (t_shape (tile self) (pixelbuffer self))))
    /\ dict_get out "transform"
       = Some (MTuple6
                 (let px := pixel_x_size (tile_pyramid self)
                              (t_zoom (tile self)) in
                  let '(left_, _, _, top) :=
                    t_bounds (tile self) (pixelbuffer self) in
                  (left_, px, fzero ops, top, fzero ops, fneg ops px)))
    /\ dict_get out "affine"
       = Some (MObject (t_affine (tile self) (pixelbuffer self)))
    /\ forall k,
         ~ In k ["width"; "height"; "transform"; "affine"] ->
         dict_get out k = dict_get base k.
Proof.
  unfold _read_metadata. intros H.
  apply rbind_Ret in H as (base & Hbase & H).
  exists base. split.
  { destruct tile_type as [t|]; [|discriminate].
    destruct (str_in t ["RasterProcessTile"; "NumpyTile"]) eqn:E1.
    - left. exists t. inversion Hbase. auto.
    - right. destruct (String.eqb t "RasterFileTile") eqn:E2; [|discriminate].
      apply String.eqb_eq in E2. subst t. split; [reflexivity|].
      apply rbind_Ret in Hbase as (src & Hsrc & Hb). inversion Hb. eauto. }
  destruct (t_bounds (tile self) (pixelbuffer self)) as [[[l b] r] t].
  inversion H; subst out. clear H.
  repeat split.
  - rewrite !dict_get_set_other by discriminate. apply dict_get_set_same.
  - rewrite !dict_get_set_other by discriminate. apply dict_get_set_same.
  - rewrite !dict_get_set_other by discriminate. apply dict_get_set_same.
  - apply dict_get_set_same.
  - intros k Hk. simpl in Hk.
    rewrite !dict_get_set_other; [reflexivity| | | |]; intros ->; tauto.
Qed.
End MetadataFacts.

Lemma read_metadata_requires_tile_type_witness :
  IoFuncs._read_metadata IoScenario.q_ops IoScenario.lib IoScenario.reader
    None
  = Err (AttributeError "tile_type required")
  /\ IoFuncs._read_metadata IoScenario.q_ops IoScenario.lib IoScenario.reader
       (Some "rasterfiletile")
     = Err (AttributeError "tile_type required").
Proof.
  split.
  - exact (@read_metadata_requires_tile_type Q IoScenario.q_ops IoScenario.lib
             IoScenario.reader None I).
  - exact (@read_metadata_requires_tile_type Q IoScenario.q_ops IoScenario.lib
             IoScenario.reader (Some "rasterfiletile") eq_refl).
Defined.

Lemma read_metadata_returns_witness :
  exists out,
    IoFuncs._read_metadata IoScenario.q_ops IoScenario.lib IoScenario.reader
      (Some "NumpyTile") = Ret out
    /\ dict_get out "width" = Some (IoFuncs.MInt 512)
    /\ dict_get out "height" = Some (IoFuncs.MInt 256)
    /\ dict_get out "driver" = Some (IoFuncs.MObject "GTiff").
Proof.
  eexists. split; [reflexivity|].
  destruct (@read_metadata_returns Q IoScenario.q_ops IoScenario.lib
              IoScenario.reader (Some "NumpyTile") _ eq_refl)
    as (base & _ & Hw & Hh & _ & _ & _).
  split; [exact Hw|]. split; [exact Hh|]. reflexivity.
Defined.

(* ================================================================== *)
(** ** The release by [_msg_wrapper], all ways of ending together *)
(* ================================================================== *)

(** X24.  Once [_msg_wrapper] has been started, [mp.__exit__] is called
    exactly once however the iteration ends: by going through the whole
    batch, by an exception of a task or of the callback (whatever the
    callback does), or by the consumer dropping the generator after any
    number of items, which also leaves it finished; a generator that was
    never started is dropped without any call. *)
Theorem msg_wrapper_releases_once cb mp ex kw tr :
  exit_count (snd (drain (_msg_wrapper (cb, mp) ex kw) tr))
  = S (exit_count tr)
  /\ (forall k,
        snd (fst (take_then_close (S k)
                    (Created (_msg_wrapper (cb, mp) ex kw)) tr)) = Finished
        /\ exit_count
             (snd (take_then_close (S k)
                     (Created (_msg_wrapper (cb, mp) ex kw)) tr))
           = S (exit_count tr))
  /\ snd (take_then_close 0 (Created (_msg_wrapper (cb, mp) ex kw)) tr) = tr.
Proof.
  split; [apply msg_wrapper_drain_exit_once|].
  split; [intros k; apply msg_wrapper_abandon_exit_once | reflexivity].
Qed.


(* ================================================================== *)
(** ** Instances of the statements without premises at the front *)
(* ================================================================== *)

(** Zero and negative band indexes go through, read off the fields. *)
Lemma validate_bidx_accepts_witness :
  Bidx._validate_bidx IoScenario.int_decimal (Some "3,0,-1")
  = Ret (Some [3; 0; -1]).
Proof.
  apply (proj2 (@validate_bidx_accepts IoScenario.int_decimal
                  (Some "3,0,-1") [3; 0; -1])).
  exists "3,0,-1". split; [reflexivity|]. split; [discriminate|].
  split; [repeat constructor | reflexivity].
Defined.

Lemma validate_bidx_rejects_witness :
  Bidx._validate_bidx IoScenario.int_decimal (Some "1,two")
  = Err (BadParameter "band indexes must be positive integer values")
  /\ Bidx._validate_bidx IoScenario.int_decimal (Some "") = Ret None.
Proof.
  destruct (@validate_bidx_rejects IoScenario.int_decimal (Some "1,two"))
    as [Herr _].
  destruct (@validate_bidx_rejects IoScenario.int_decimal (Some ""))
    as [_ Hnone].
  split.
  - apply Herr. split; [reflexivity|].
    exists "1,two", "two". split; [reflexivity|]. split; [discriminate|].
    split; [right; left; reflexivity | reflexivity].
  - apply Hnone. reflexivity.
Defined.

Lemma clean_geometry_type_errors_witness :
  IoFuncs.clean_geometry_type IoScenario.construct_ok
    (IoFuncs.mkGeometry "Polygon" false "POLYGON (...)" []) "Triangle" true
  = Err (ValueError "target type is not supported: Triangle")
  /\ IoFuncs.clean_geometry_type IoScenario.construct_ok
       (IoFuncs.mkGeometry "Polygon" false "POLYGON (...)" []) "Polygon" true
     = Err AssertionError.
Proof.
  split.
  - apply (proj1 (@clean_geometry_type_errors IoScenario.construct_ok
                    (IoFuncs.mkGeometry "Polygon" false "POLYGON (...)" [])
                    "Triangle" true)).
    reflexivity.
  - apply (proj2 (@clean_geometry_type_errors IoScenario.construct_ok
                    (IoFuncs.mkGeometry "Polygon" false "POLYGON (...)" [])
                    "Polygon" true)).
    + discriminate.
    + reflexivity.
Defined.

Lemma reproject_geometry_returns_witness :
  IoFuncs.reproject_geometry IoScenario.lib IoScenario.bbox_geom
    IoScenario.wgs84 IoScenario.wgs84
  = Ret IoScenario.bbox_geom.
Proof.
  apply (proj2 (@reproject_geometry_returns Q IoScenario.lib
                  IoScenario.bbox_geom IoScenario.wgs84 IoScenario.wgs84
                  IoScenario.bbox_geom)).
  repeat split.
Defined.


(* ================================================================== *)
(** ** [file_bbox] and [get_best_zoom_level], continued *)
(* ================================================================== *)

Section IoMoreFacts.
Import IoFuncs.
Variable F : Type.
Variable ops : FloatOps F.
Variable lib : Lib F.

(** What [reproject_geometry] returns is valid. *)
Lemma reproject_geometry_valid g src dst g' :
  reproject_geometry lib g src dst = Ret g' -> is_valid g' = true.
Proof.
  unfold reproject_geometry. intros H.
  apply rbind_Ret in H as (u1 & _ & H).
  apply rbind_Ret in H as (u2 & _ & H).
  apply rbind_Ret in H as (u3 & _ & H).
  apply rbind_Ret in H as (out & _ & H).
  destruct (is_valid out) eqn:Ev; [|discriminate].
  now inversion H; subst.
Qed.

(** X25.  When the CRS of the file differs from that of the pyramid, the
    repair by [buffer(0)] at the end of [file_bbox] is never reached:
    the call returns what [reproject_geometry] returns for the box (the
    segmentized box for a raster) and raises what the segmentation or the
    reprojection raises, an invalid reprojected geometry giving
    [ValueError] and not [TypeError]. *)
Theorem file_bbox_reprojected input_file tile_pyramid crs bounds :
  (if str_in (file_ext lib input_file) ["shp"; "geojson"]
   then fiona_open lib input_file = Ret (crs, bounds)
   else exists inp, rasterio_open lib input_file = Ret inp
                    /\ r_crs inp = crs /\ r_bounds inp = bounds) ->
  crs_eq lib crs (tp_crs tile_pyramid) = false ->
  file_bbox ops lib input_file tile_pyramid
  = let* bbox :=
      (if str_in (file_ext lib input_file) ["shp"; "geojson"]
       then Ret (box lib bounds)
       else
         let* segmentize :=
           _get_segmentize_value ops lib input_file tile_pyramid in
         ogr_segmentize lib (box lib bounds) segmentize) in
    reproject_geometry lib bbox crs (tp_crs tile_pyramid).
Proof.
  intros Hsrc Hcrs. rewrite file_bbox_source. cbv zeta.
  assert (Hopen :
            (if str_in (file_ext lib input_file) ["shp"; "geojson"]
             then fiona_open lib input_file
             else let* inp := rasterio_open lib input_file in
                  Ret (r_crs inp, r_bounds inp))
            = Ret (crs, bounds)).
  { destruct (str_in _ _); [exact Hsrc|].
    destruct Hsrc as (inp & -> & <- & <-). reflexivity. }
  rewrite Hopen. cbn [rbind]. rewrite Hcrs. cbn [negb].
  set (bbox := if negb (str_in (file_ext lib input_file) ["shp"; "geojson"])
               then _ else _).
  assert (Hb : bbox
               = if str_in (file_ext lib input_file) ["shp"; "geojson"]
                 then Ret (box lib bounds)
                 else
                   let* segmentize :=
                     _get_segmentize_value ops lib input_file tile_pyramid in
                   ogr_segmentize lib (box lib bounds) segmentize).
  { subst bbox. now destruct (str_in _ _). }
  rewrite Hb. clear Hb bbox.
  match goal with |- rbind (rbind ?c _) _ = _ => destruct c as [b|e] end;
    cbn [rbind]; [|reflexivity].
  destruct (reproject_geometry lib b crs (tp_crs tile_pyramid)) as [g|e] eqn:E;
    cbn [rbind]; [|reflexivity].
  apply reproject_geometry_valid in E. unfold validated. now rewrite E.
Qed.

(** X26.  With a pyramid whose pixel size, once it is at most the
    average resolution, stays so at the next zoom level, the result of
    [get_best_zoom_level] separates the zoom levels 0 to 24: the pixel
    size is at most the resolution exactly at the levels above the
    result. *)
Theorem get_best_zoom_level_separates input_file tile_pyramid_type tp bbox src
    avg z :
  new_pyramid lib tile_pyramid_type = Ret tp ->
  file_bbox ops lib input_file tp = Ret bbox ->
  rasterio_open lib input_file = Ret src ->
  avg_resolution_of ops (bounds_of lib bbox) (r_width src) (r_height src)
  = Ret avg ->
  (forall k, 0 <= k < 24 ->
             fle ops (pixel_x_size tp k) avg = true ->
             fle ops (pixel_x_size tp (k + 1)) avg = true) ->
  get_best_zoom_level ops lib input_file tile_pyramid_type = Ret z ->
  forall k, 0 <= k <= 24 ->
            (fle ops (pixel_x_size tp k) avg = true <-> z < k).
Proof.
  intros Htp Hb Hs Ha Hup. unfold get_best_zoom_level.
  rewrite Htp. cbn [rbind]. rewrite Hb. cbn [rbind]. rewrite Hs. cbn [rbind].
  rewrite Ha. cbn [rbind]. intros H.
  apply (first_fitting_spec ops tp avg 25 0) in H as (Hr & Hfit & Hbelow).
  simpl in Hr.
  assert (Habove : forall n : nat,
             z + 1 + Z.of_nat n <= 24 ->
             fle ops (pixel_x_size tp (z + 1 + Z.of_nat n)) avg = true).
  { induction n as [|n IH]; intros Hn.
    - now replace (z + 1 + Z.of_nat 0) with (z + 1) by lia.
    - replace (z + 1 + Z.of_nat (S n)) with (z + 1 + Z.of_nat n + 1) by lia.
      apply Hup; [lia | apply IH; lia]. }
  intros k Hk. split.
  - intros Hf. destruct (Z_lt_le_dec z k) as [Hlt|Hle]; [exact Hlt|].
    rewrite Hbelow in Hf by lia. discriminate.
  - intros Hlt.
    replace k with (z + 1 + Z.of_nat (Z.to_nat (k - z - 1))) by lia.
    apply Habove. lia.
Qed.
End IoMoreFacts.

Lemma file_bbox_reprojected_witness :
  IoFuncs.file_bbox IoScenario.q_ops IoScenario.lib "dem.tif"
    IoScenario.mercator
  = Ret IoScenario.bbox_geom.
Proof.
  rewrite (@file_bbox_reprojected Q IoScenario.q_ops IoScenario.lib "dem.tif"
             IoScenario.mercator IoScenario.wgs84 (0, 0, 10, 10)%Q).
  - reflexivity.
  - exists IoScenario.raster. repeat split.
  - reflexivity.
Defined.

Lemma get_best_zoom_level_separates_witness :
  IoFuncs.fle IoScenario.q_ops
    (IoFuncs.pixel_x_size IoScenario.geodetic 7)
    (40000000 # 400000000)%Q = true
  <-> 2 < 7.
Proof.
  apply (@get_best_zoom_level_separates Q IoScenario.q_ops IoScenario.lib
           "dem.tif" "geodetic" IoScenario.geodetic IoScenario.bbox_geom
           IoScenario.raster (40000000 # 400000000)%Q 2
           eq_refl eq_refl eq_refl eq_refl); [|reflexivity|lia].
  intros k Hk.
  assert (Hcases : In k (map Z.of_nat (seq 0 24))).
  { replace k with (Z.of_nat (Z.to_nat k)) by lia.
    apply in_map, in_seq. lia. }
  simpl in Hcases.
  repeat (destruct Hcases as [<-|Hcases];
          [vm_compute; intros H; (exact H || reflexivity)|]).
  destruct Hcases.
Defined.
